(** * python-practice: decorators and generators

    A shallow embedding of three scripts of the repository:

    - [python-tips/07_decorators/input_validation.py]: the decorator factory
      [validate_inputs] and the function [process_numbers] it decorates;
    - [python-tips/07_decorators/timing.py]: the decorator [timeit] and the
      function [long_running_task] it decorates;
    - [python-tips/03_generators/main.py]: [fibon_generator],
      [fibon_normal] and [generator_function];
    - [python-tips/01_args_kwargs/main.py]: [test_var_args], [greet_me] and
      [test_args_kwargs];
    - [python-tips/06_ternary_operators/main.py]: the two conditional idioms
      and [my_function];
    - [python-tips/05_set/main.py]: the two ways of listing duplicates.

    Python calls are modelled as computations over an explicit world (module
    globals, the wall clock, the lines printed so far) that either return a
    value or raise an exception. *)

From Stdlib Require Import ZArith List String Bool Lia PeanoNat.
From Stdlib Require Import Decimal DecimalString DecimalNat.
From Stdlib Require Import Floats.PrimFloat.
From Stdlib Require Import Permutation Sorted Orders Mergesort.
Import ListNotations.

Local Open Scope list_scope.

(** ** Values, exceptions and the world *)

(** The values that flow through the decorated functions.  The decorators
    forward them untouched; the only operation the source applies to a value
    is the truth test of [if not rule(arg)]. *)
Inductive value : Type :=
| VNone
| VBool (b : bool)
| VInt (z : Z)
| VStr (s : string).

(** Python's truth value testing on these values. *)
Definition truthy (v : value) : bool :=
  match v with
  | VNone => false
  | VBool b => b
  | VInt z => negb (z =? 0)%Z
  | VStr s => negb (s =? "")%string
  end.

(** Exceptions.  [ValueError] carries the message the source builds; the
    messages of the interpreter-raised [TypeError], [AttributeError] and
    [IndexError] are not modelled; any other exception is a class name and a
    message. *)
Inductive exn : Type :=
| ValueError (msg : string)
| TypeError
| AttributeError
| IndexError
| OtherError (cls msg : string).

Inductive outcome (A : Type) : Type :=
| Return (a : A)
| Raise (e : exn).
Arguments Return {A} a.
Arguments Raise {A} e.

(** The state a call can observe and change: module-level variables, the
    reading of the wall clock ([time.time()], a binary64 float) and the lines
    written by [print]. *)
Record world : Type := mkWorld {
  globals : list (string * value);
  clock : float;
  stdout : list string
}.

(** ** Computations *)

Definition py (A : Type) : Type := world -> outcome A * world.

Definition ret {A} (a : A) : py A := fun w => (Return a, w).

Definition raise {A} (e : exn) : py A := fun w => (Raise e, w).

Definition bind {A B} (c : py A) (k : A -> py B) : py B :=
  fun w =>
    match c w with
    | (Return a, w1) => k a w1
    | (Raise e, w1) => (Raise e, w1)
    end.

Declare Scope py_scope.
Delimit Scope py_scope with py.
Notation "x <- c ;; k" := (bind c (fun x => k))
  (at level 61, c at next level, right associativity) : py_scope.
Notation "c ;; k" := (bind c (fun _ => k))
  (at level 61, right associativity) : py_scope.
Local Open Scope py_scope.

(** [for x in items: body(x)], where the body may raise. *)
Fixpoint for_each {A} (body : A -> py unit) (items : list A) : py unit :=
  match items with
  | [] => ret tt
  | x :: rest => body x ;; for_each body rest
  end.

(** [print(line)] and [time.time()], a reading of the wall clock. *)
Definition print (line : string) : py unit :=
  fun w => (Return tt, mkWorld (globals w) (clock w) (stdout w ++ [line])).

Definition time_time : py float := fun w => (Return (clock w), w).

(** ** Callables *)

(** A callable object: its [__name__], when it has one (a function has, a
    [functools.partial] object or an instance with [__call__] has not), and
    what a call with positional arguments [args] and keyword arguments
    [kwargs] does.  The keyword arguments keep their order. *)
Definition kwargs_t : Type := list (string * value).

Record callable : Type := mkCallable {
  fn_name : option string;
  fn_call : list value -> kwargs_t -> py value
}.

(** [func.__name__]: an [AttributeError] when there is none. *)
Definition getattr_name (func : callable) : py string :=
  match fn_name func with
  | Some name => ret name
  | None => raise AttributeError
  end.

(** [functools.wraps(func)(wrapper)]: the wrapper takes over [func.__name__]
    when [func] has one and keeps its own otherwise. *)
Definition functools_wraps (func wrapper : callable) : callable :=
  mkCallable
    (match fn_name func with
     | Some name => Some name
     | None => fn_name wrapper
     end)
    (fn_call wrapper).

(** [functools.partial(func, *bound)]: calls [func] with [bound] in front of
    the positional arguments; the object has no [__name__]. *)
Definition functools_partial (func : callable) (bound : list value) : callable :=
  mkCallable None (fun args kwargs => fn_call func (bound ++ args) kwargs).

(** [lambda param: <expr>]: one parameter, given by position or by name. *)
Definition lambda (param : string) (expr : value -> py value) : callable :=
  mkCallable (Some "<lambda>"%string)
    (fun args kwargs =>
       match args, kwargs with
       | [x], [] => expr x
       | [], [(k, x)] => if (k =? param)%string then expr x else raise TypeError
       | _, _ => raise TypeError
       end).

(** [func] with its inputs already supplied: whatever it is called with, it
    runs [func] on the given [args] and [kwargs]. *)
Definition with_inputs (func : callable) (args : list value) (kwargs : kwargs_t)
    : callable :=
  mkCallable (fn_name func) (fun _ _ => fn_call func args kwargs).

(** A world to run the scripts in: no globals, nothing printed yet. *)
Definition initial_world : world := mkWorld [] 0%float [].

(** [zip] and [enumerate] on sequences. *)
Definition zip {A B} (xs : list A) (ys : list B) : list (A * B) := combine xs ys.

Definition enumerate_from {A} (start : nat) (xs : list A) : list (nat * A) :=
  combine (seq start (List.length xs)) xs.

Definition enumerate {A} (xs : list A) : list (nat * A) := enumerate_from 0 xs.

(** [str(n)] for an index and for an integer, and [str(v)] as an f-string
    field renders it. *)
Definition str_nat (n : nat) : string := NilEmpty.string_of_uint (Nat.to_uint n).

Definition str_int (z : Z) : string := NilZero.string_of_int (Z.to_int z).

Definition str_value (v : value) : string :=
  match v with
  | VNone => "None"
  | VBool true => "True"
  | VBool false => "False"
  | VInt z => str_int z
  | VStr s => s
  end.

(** ** input_validation.py *)

Module InputValidation.

(** [f"Argument at index {i} does not satisfy the rule."] *)
Definition message (i : nat) : string :=
  ("Argument at index " ++ str_nat i ++ " does not satisfy the rule.")%string.

(** The body of the loop of [wrapper], for one item
    [i, (arg, rule)] of [enumerate(zip(args, validation_rules))]. *)
Definition check (item : nat * (value * callable)) : py unit :=
  let '(i, (arg, rule)) := item in
  verdict <- fn_call rule [arg] [] ;;
  if negb (truthy verdict) then raise (ValueError (message i)) else ret tt.

Definition wrapper (validation_rules : list callable) (func : callable)
    (args : list value) (kwargs : kwargs_t) : py value :=
  for_each check (enumerate (zip args validation_rules)) ;;
  fn_call func args kwargs.

Definition decorator (validation_rules : list callable) (func : callable) : callable :=
  functools_wraps func
    (mkCallable (Some "wrapper"%string) (wrapper validation_rules func)).

Definition validate_inputs (validation_rules : list callable) : callable -> callable :=
  decorator validation_rules.

(** [lambda x: isinstance(x, int)]; [bool] is a subclass of [int]. *)
Definition is_int_rule : callable :=
  lambda "x" (fun x =>
    ret (VBool match x with VInt _ | VBool _ => true | _ => false end)).

(** [lambda x: x > 0]; comparing [None] or a string with [0] raises. *)
Definition positive_rule : callable :=
  lambda "x" (fun x =>
    match x with
    | VInt z => ret (VBool (0 <? z)%Z)
    | VBool b => ret (VBool b)
    | VNone | VStr _ => raise TypeError
    end).

(** [def process_numbers(x, y)] before decoration: binds its two parameters,
    prints one line and returns [None]. *)
Definition process_numbers_body (x y : value) : py value :=
  print ("Processing numbers: " ++ str_value x ++ ", " ++ str_value y)%string ;;
  ret VNone.

Definition process_numbers_undecorated : callable :=
  mkCallable (Some "process_numbers"%string)
    (fun args kwargs =>
       match args, kwargs with
       | [x; y], [] => process_numbers_body x y
       | [x], [(k, y)] =>
           if (k =? "y")%string then process_numbers_body x y else raise TypeError
       | [], [(k1, v1); (k2, v2)] =>
           if ((k1 =? "x") && (k2 =? "y"))%string then process_numbers_body v1 v2
           else if ((k1 =? "y") && (k2 =? "x"))%string then process_numbers_body v2 v1
           else raise TypeError
       | _, _ => raise TypeError
       end).

Definition process_numbers : callable :=
  validate_inputs [is_int_rule; positive_rule] process_numbers_undecorated.

(** Every rule paired with a positional input returns a true value, one after
    the other: [all_pass args rules w w'] holds when evaluating the paired
    rules in order from [w] ends in [w'].  Inputs without a rule and rules
    without an input take no part. *)
Inductive all_pass : list value -> list callable -> world -> world -> Prop :=
| pass_no_input rules w : all_pass [] rules w w
| pass_no_rule args w : all_pass args [] w w
| pass_step arg args rule rules w verdict w1 w' :
    fn_call rule [arg] [] w = (Return verdict, w1) ->
    truthy verdict = true ->
    all_pass args rules w1 w' ->
    all_pass (arg :: args) (rule :: rules) w w'.

End InputValidation.

(** ** timing.py *)

Module Timing.

Section Report.

(** How an f-string renders a float ([repr] of a binary64: the shortest
    decimal that reads back as the same float) is left open. *)
Variable float_repr : float -> string.

(** What the wall clock reads when [time.sleep(secs)], called in a given
    world, returns.  The sleep lasts at least [secs] and as much longer as
    the scheduler makes it, and the wall clock may be set meanwhile, so
    nothing ties this reading to the one before the sleep. *)
Variable clock_after_sleep : float -> world -> float.

Definition time_sleep (secs : float) : py unit :=
  fun w => (Return tt, mkWorld (globals w) (clock_after_sleep secs w) (stdout w)).

(** [f"{func.__name__} executed in {end_time - start_time} seconds."] *)
Definition report (name : string) (start_time end_time : float) : string :=
  (name ++ " executed in " ++ float_repr (end_time - start_time)%float
        ++ " seconds.")%string.

Definition wrapper (func : callable) (args : list value) (kwargs : kwargs_t)
    : py value :=
  start_time <- time_time ;;
  result <- fn_call func args kwargs ;;
  end_time <- time_time ;;
  name <- getattr_name func ;;
  print (report name start_time end_time) ;;
  ret result.

Definition timeit (func : callable) : callable :=
  functools_wraps func (mkCallable (Some "wrapper"%string) (wrapper func)).

(** [def long_running_task()] before decoration. *)
Definition long_running_task_undecorated : callable :=
  mkCallable (Some "long_running_task"%string)
    (fun args kwargs =>
       match args, kwargs with
       | [], [] => time_sleep 2 ;; print "Task completed." ;; ret VNone
       | _, _ => raise TypeError
       end).

Definition long_running_task : callable := timeit long_running_task_undecorated.

End Report.

(** A sleep that lasts exactly as long as asked, on a clock nobody sets. *)
Definition punctual_sleep (secs : float) (w : world) : float :=
  (clock w + secs)%float.

(** A sleep that lasts as long as asked while the wall clock is set back by
    [step] seconds. *)
Definition sleep_with_clock_set_back (step secs : float) (w : world) : float :=
  (clock w + secs - step)%float.

End Timing.

(** ** generators/main.py *)

Module Generators.

Local Open Scope Z_scope.

(** [range(n)]: empty when [n <= 0]. *)
Definition range (n : Z) : list Z := map Z.of_nat (seq 0 (Z.to_nat n)).

(** The local variables [a], [b] and [result] of [fibon_normal]. *)
Record locals : Type := mkLocals { var_a : Z; var_b : Z; var_result : list Z }.

(** One turn of the loop of [fibon_normal]:
    [result.append(a)] then [a, b = b, a + b]. *)
Definition loop_body (l : locals) (i : Z) : locals :=
  mkLocals (var_b l) (var_a l + var_b l) (var_result l ++ [var_a l]).

Definition fibon_normal (n : Z) : list Z :=
  var_result (fold_left loop_body (range n) (mkLocals 1 1 [])).

(** The frame of a generator made by [fibon_generator(n)]: not started yet,
    suspended at [yield a] with the rest of the [range] iterator, or
    finished. *)
Inductive frame : Type :=
| Created (n : Z)
| Suspended (a b : Z) (pending : list Z)
| Finished.

(** The head of the [for] loop: take the next [i] and reach [yield a], or
    leave the loop and finish. *)
Definition loop_head (a b : Z) (pending : list Z) : option Z * frame :=
  match pending with
  | [] => (None, Finished)
  | _ :: rest => (Some a, Suspended a b rest)
  end.

(** [next(gen)]: [Some x] when the generator yields [x], [None] for
    [StopIteration]. *)
Definition next (gen : frame) : option Z * frame :=
  match gen with
  | Created n => loop_head 1 1 (range n)
  | Suspended a b pending => loop_head b (a + b) pending
  | Finished => (None, Finished)
  end.

Definition fibon_generator (n : Z) : frame := Created n.

(** [list(gen)]: call [next] until [StopIteration], at most [fuel] times. *)
Fixpoint collect (fuel : nat) (gen : frame) : option (list Z) :=
  match fuel with
  | O => None
  | S fuel' =>
      match next gen with
      | (None, _) => Some []
      | (Some x, gen') => option_map (cons x) (collect fuel' gen')
      end
  end.

(** What a loop that starts with [a] and [b] produces in [turns] turns. *)
Fixpoint fibs_from (a b : Z) (turns : nat) : list Z :=
  match turns with
  | O => []
  | S turns' => a :: fibs_from b (a + b) turns'
  end.

(** The Fibonacci numbers starting 1, 1, as a recurrence. *)
Fixpoint fib (k : nat) : Z :=
  match k with
  | O => 1
  | S k' =>
      match k' with
      | O => 1
      | S k'' => fib k'' + fib k'
      end
  end.

End Generators.

(** ** generators/main.py, continued *)

Module GeneratorSteps.

Import Generators.

Local Open Scope Z_scope.

(** The generator after [calls] calls of [next]. *)
Fixpoint advance (calls : nat) (gen : frame) : frame :=
  match calls with
  | O => gen
  | S calls' => advance calls' (snd (next gen))
  end.

(** The frame of a generator made by [generator_function()], whose body is
    [for i in range(stop): yield i]; the script defines it with [stop = 10]
    and then again with [stop = 3]. *)
Inductive counter_frame : Type :=
| CounterCreated (stop : Z)
| CounterSuspended (pending : list Z)
| CounterFinished.

Definition counter_head (pending : list Z) : option Z * counter_frame :=
  match pending with
  | [] => (None, CounterFinished)
  | i :: rest => (Some i, CounterSuspended rest)
  end.

Definition counter_next (gen : counter_frame) : option Z * counter_frame :=
  match gen with
  | CounterCreated stop => counter_head (range stop)
  | CounterSuspended pending => counter_head pending
  | CounterFinished => (None, CounterFinished)
  end.

Definition generator_function_first : counter_frame := CounterCreated 10.

Definition generator_function : counter_frame := CounterCreated 3.

Fixpoint counter_advance (calls : nat) (gen : counter_frame) : counter_frame :=
  match calls with
  | O => gen
  | S calls' => counter_advance calls' (snd (counter_next gen))
  end.

End GeneratorSteps.

(** ** Binding the arguments of a call *)

(** [print(a, b, ...)]: the items separated by one space. *)
Definition print_items (items : list string) : py unit :=
  print (String.concat " " items).

(** The value passed under the name [key], if any. *)
Definition lookup (key : string) (kwargs : kwargs_t) : option value :=
  option_map snd (find (fun item => (fst item =? key)%string) kwargs).

Fixpoint distinct (keys : list string) : bool :=
  match keys with
  | [] => true
  | key :: rest => negb (existsb (String.eqb key) rest) && distinct rest
  end.

(** The values of the parameters [named] that were not given by position:
    from the keyword arguments, else from the default; [None] when one has
    neither. *)
Fixpoint named_values (named : list (string * option value)) (kwargs : kwargs_t)
    : option (list value) :=
  match named with
  | [] => Some []
  | (name, default) :: rest =>
      match (match lookup name kwargs with Some v => Some v | None => default end),
            named_values rest kwargs with
      | Some v, Some vs => Some (v :: vs)
      | _, _ => None
      end
  end.

(** Binding a call to a function whose parameters are [params] (a name and
    an optional default each; no star parameters): the positional arguments
    fill the first parameters, every keyword must name one of the others and
    come once, and every other parameter needs a keyword or a default.
    [None] stands for the [TypeError] of a call that does not fit. *)
Definition bind_params (params : list (string * option value))
    (args : list value) (kwargs : kwargs_t) : option (list value) :=
  let named := skipn (List.length args) params in
  if (List.length args <=? List.length params)%nat
     && distinct (map fst kwargs)
     && forallb (fun key => existsb (String.eqb key) (map fst named)) (map fst kwargs)
  then option_map (fun vs => args ++ vs) (named_values named kwargs)
  else None.

(** ** args_kwargs/main.py *)

Module ArgsKwargs.

Definition test_var_args_body (f_arg : value) (argv : list value) : py value :=
  print_items ["first normal arg:"%string; str_value f_arg] ;;
  for_each
    (fun arg => print_items ["another arg through *argv:"%string; str_value arg])
    argv ;;
  ret VNone.

(** [def test_var_args(f_arg, *argv)]: the first positional argument is
    [f_arg] (it may come by name when there is no positional argument), the
    others are collected in [argv]. *)
Definition test_var_args : callable :=
  mkCallable (Some "test_var_args"%string)
    (fun args kwargs =>
       match args, kwargs with
       | f_arg :: argv, [] => test_var_args_body f_arg argv
       | [], [(key, f_arg)] =>
           if (key =? "f_arg")%string then test_var_args_body f_arg []
           else raise TypeError
       | _, _ => raise TypeError
       end).

(** [greet_me] takes keyword arguments only (a double-star parameter) and
    prints them in the order given. *)
Definition greet_me : callable :=
  mkCallable (Some "greet_me"%string)
    (fun args kwargs =>
       match args with
       | [] =>
           for_each
             (fun item => print (fst item ++ " = " ++ str_value (snd item))%string)
             kwargs ;;
           ret VNone
       | _ :: _ => raise TypeError
       end).

Definition test_args_kwargs_body (arg1 arg2 arg3 : value) : py value :=
  print_items ["arg1:"%string; str_value arg1] ;;
  print_items ["arg2:"%string; str_value arg2] ;;
  print_items ["arg3:"%string; str_value arg3] ;;
  ret VNone.

(** [def test_args_kwargs(arg1, arg2, arg3)] *)
Definition test_args_kwargs : callable :=
  mkCallable (Some "test_args_kwargs"%string)
    (fun args kwargs =>
       match bind_params
               [("arg1"%string, None); ("arg2"%string, None); ("arg3"%string, None)]
               args kwargs with
       | Some [arg1; arg2; arg3] => test_args_kwargs_body arg1 arg2 arg3
       | _ => raise TypeError
       end).

End ArgsKwargs.

(** ** ternary_operators/main.py *)

Module Ternary.

Local Open Scope Z_scope.

(** [value_if_true if condition else value_if_false] *)
Definition conditional (value_if_true value_if_false condition : value) : value :=
  if truthy condition then value_if_true else value_if_false.

(** [items[index]] on a tuple: an [int] (or a [bool], which is one) counts
    from the end when negative; out of range is an [IndexError] (also for an
    [int] too large for an index); any other index is a [TypeError]. *)
Definition tuple_index (items : list value) (index : value) : outcome value :=
  let at_position (z : Z) :=
    let n := Z.of_nat (List.length items) in
    let i := if z <? 0 then z + n else z in
    match (if (0 <=? i) && (i <? n) then nth_error items (Z.to_nat i) else None) with
    | Some v => Return v
    | None => Raise IndexError
    end in
  match index with
  | VInt z => at_position z
  | VBool b => at_position (if b then 1 else 0)
  | VNone | VStr _ => Raise TypeError
  end.

(** [(if_test_is_false, if_test_is_true)[test]] *)
Definition tuple_select (if_test_is_false if_test_is_true test : value)
    : outcome value :=
  tuple_index [if_test_is_false; if_test_is_true] test.

(** [state] and [personality] of the script, as functions of the flag. *)
Definition state (is_nice : value) : value :=
  conditional (VStr "nice") (VStr "not nice") is_nice.

Definition personality (nice : value) : outcome value :=
  tuple_select (VStr "mean") (VStr "nice") nice.

Definition my_function_body (real_name optional_display_name : value) : py value :=
  let display_name :=
    if truthy optional_display_name then optional_display_name else real_name in
  print (str_value display_name) ;;
  ret VNone.

(** [def my_function(real_name, optional_display_name=None)] *)
Definition my_function : callable :=
  mkCallable (Some "my_function"%string)
    (fun args kwargs =>
       match bind_params
               [("real_name"%string, None);
                ("optional_display_name"%string, Some VNone)]
               args kwargs with
       | Some [real_name; optional_display_name] =>
           my_function_body real_name optional_display_name
       | _ => raise TypeError
       end).

End Ternary.

(** ** set/main.py *)

Module StringOrder <: TotalLeBool.
Definition t : Type := string.
Definition leb : string -> string -> bool := String.leb.
Lemma leb_total (a b : string) : leb a b = true \/ leb b a = true.
Proof. apply String.leb_total. Qed.
End StringOrder.

Module StringSort := Sort StringOrder.

Module SetDemo.

(** [some_list.count(value)] *)
Definition count (some_list : list string) (value : string) : nat :=
  count_occ string_dec some_list value.

(** The first loop of the script: the list [duplicates] it builds. *)
Definition duplicates_inefficient (some_list : list string) : list string :=
  fold_left
    (fun duplicates value =>
       if (1 <? count some_list value)%nat then
         if negb (existsb (String.eqb value) duplicates) then duplicates ++ [value]
         else duplicates
       else duplicates)
    some_list [].

(** [set(items)]: a set is kept as a list without repetition, whose order
    stands for the iteration order Python leaves open. *)
Definition set_of (items : list string) : list string := nodup string_dec items.

(** [set([x for x in some_list if some_list.count(x) > 1])] *)
Definition duplicates_efficient (some_list : list string) : list string :=
  set_of (filter (fun x => (1 <? count some_list x)%nat) some_list).

(** [sorted(strings)]: increasing in the order of the characters' codes. *)
Definition sorted (strings : list string) : list string := StringSort.sort strings.

End SetDemo.

(** * Properties *)

(** ** The validating decorator *)

Section ValidationFacts.

Import InputValidation.

Lemma length_append (s t : string) :
  String.length (s ++ t)%string = String.length s + String.length t.
Proof. induction s as [|c s IH]; simpl; [reflexivity | now rewrite IH]. Qed.

Lemma append_cancel_r (s1 s2 t : string) :
  (s1 ++ t)%string = (s2 ++ t)%string -> s1 = s2.
Proof.
  intros H.
  assert (Hlen : String.length s1 = String.length s2).
  { apply (f_equal String.length) in H. rewrite !length_append in H. lia. }
  revert s2 H Hlen.
  induction s1 as [|c s1 IH]; intros [|d s2] H Hlen; simpl in *;
    try discriminate; try reflexivity.
  injection H as -> H. f_equal. apply IH; [assumption | lia].
Qed.

Lemma str_nat_inj (i j : nat) : str_nat i = str_nat j -> i = j.
Proof.
  unfold str_nat. intros H.
  apply Unsigned.to_uint_inj.
  assert (Hu : Some (Nat.to_uint i) = Some (Nat.to_uint j))
    by (rewrite <- !NilEmpty.usu; now rewrite H).
  now injection Hu.
Qed.

(** The message tells the index: two indices with one message are equal. *)
Lemma message_inj (i j : nat) : message i = message j -> i = j.
Proof.
  unfold message. cbn [append]. intros H.
  repeat (injection H as H).
  apply str_nat_inj. eapply append_cancel_r. exact H.
Qed.

Lemma enumerate_from_cons {A} (k : nat) (x : A) (xs : list A) :
  enumerate_from k (x :: xs) = (k, x) :: enumerate_from (S k) xs.
Proof. reflexivity. Qed.

Lemma zip_nil_r {A B} (xs : list A) : zip xs (@nil B) = [].
Proof. now destruct xs. Qed.

(** When every paired rule passes, the loop of [wrapper] runs to its end. *)
Lemma loop_passes args rules w w' :
  all_pass args rules w w' ->
  forall k, for_each check (enumerate_from k (zip args rules)) w = (Return tt, w').
Proof.
  induction 1 as [rules w | args w | arg args rule rules w verdict w1 w' Hcall Htrue _ IH];
    intros k.
  - reflexivity.
  - now rewrite zip_nil_r.
  - unfold zip in *. simpl combine. rewrite enumerate_from_cons.
    cbn [for_each]. unfold bind at 1. unfold check at 1. unfold bind at 1.
    rewrite Hcall, Htrue. cbn [negb]. apply IH.
Qed.

(** When the rules before index [length pre_args] pass and the check at that
    index raises, the loop stops there with that exception. *)
Lemma loop_stops pre_args pre_rules w w_i :
  all_pass pre_args pre_rules w w_i ->
  List.length pre_args = List.length pre_rules ->
  forall k arg rule rest_args rest_rules e w',
    check (k + List.length pre_args, (arg, rule)) w_i = (Raise e, w') ->
    for_each check
      (enumerate_from k (zip (pre_args ++ arg :: rest_args)
                             (pre_rules ++ rule :: rest_rules))) w
    = (Raise e, w').
Proof.
  induction 1 as [rules w | args w | a args r rules w verdict w1 w' Hcall Htrue _ IH];
    intros Hlen k arg rule rest_args rest_rules e w2 Hcheck.
  - destruct rules; [|discriminate].
    cbn [List.length] in Hcheck. rewrite Nat.add_0_r in Hcheck.
    unfold zip. rewrite !app_nil_l. simpl combine. rewrite enumerate_from_cons.
    cbn [for_each]. unfold bind at 1. now rewrite Hcheck.
  - destruct args; [|discriminate].
    cbn [List.length] in Hcheck. rewrite Nat.add_0_r in Hcheck.
    unfold zip. rewrite !app_nil_l. simpl combine. rewrite enumerate_from_cons.
    cbn [for_each]. unfold bind at 1. now rewrite Hcheck.
  - cbn [List.length] in Hlen, Hcheck. injection Hlen as Hlen.
    unfold zip in *. rewrite <- !app_comm_cons. simpl combine. rewrite enumerate_from_cons.
    cbn [for_each]. unfold bind at 1. unfold check at 1. unfold bind at 1.
    rewrite Hcall, Htrue. cbn [negb].
    apply IH; [assumption|].
    now rewrite Nat.add_succ_comm.
Qed.

(** A rule that returns a false value makes its check raise [ValueError]. *)
Lemma check_rejects i arg rule w verdict w' :
  fn_call rule [arg] [] w = (Return verdict, w') ->
  truthy verdict = false ->
  check (i, (arg, rule)) w = (Raise (ValueError (message i)), w').
Proof.
  intros Hcall Hfalse. unfold check, bind. now rewrite Hcall, Hfalse.
Qed.

(** A rule that raises makes its check raise the same exception. *)
Lemma check_propagates i arg rule w e w' :
  fn_call rule [arg] [] w = (Raise e, w') ->
  check (i, (arg, rule)) w = (Raise e, w').
Proof.
  intros Hcall. unfold check, bind. now rewrite Hcall.
Qed.

Lemma call_validated rules func args kwargs w :
  fn_call (validate_inputs rules func) args kwargs w
  = match for_each check (enumerate (zip args rules)) w with
    | (Return _, w1) => fn_call func args kwargs w1
    | (Raise e, w1) => (Raise e, w1)
    end.
Proof. reflexivity. Qed.

Lemma nth_error_decompose {A} (l : list A) (i : nat) (x : A) :
  nth_error l i = Some x -> l = firstn i l ++ x :: skipn (S i) l.
Proof.
  revert l. induction i as [|i IH]; intros [|y l] H; simpl in *; try discriminate.
  - now injection H as ->.
  - f_equal. now apply IH.
Qed.

Lemma firstn_length_nth_error {A} (l : list A) (i : nat) (x : A) :
  nth_error l i = Some x -> List.length (firstn i l) = i.
Proof.
  intros H. apply List.firstn_length_le.
  apply Nat.lt_le_incl. apply nth_error_Some. now rewrite H.
Qed.

Lemma combine_firstn_r {A B} (xs : list A) (ys : list B) :
  combine xs (firstn (List.length xs) ys) = combine xs ys.
Proof.
  revert ys. induction xs as [|x xs IH]; intros [|y ys]; simpl; try reflexivity.
  now rewrite IH.
Qed.

Lemma combine_firstn_l {A B} (xs : list A) (ys : list B) :
  combine (firstn (List.length ys) xs) ys = combine xs ys.
Proof.
  revert xs. induction ys as [|y ys IH]; intros [|x xs]; simpl; try reflexivity.
  now rewrite IH.
Qed.

(** The call of the spec's first scenario: with the rules of the script,
    [process_numbers(-10, 5)] is accepted ([-10] is an [int], [5 > 0]) and
    the decorated function runs. *)
Lemma process_numbers_minus10_5 :
  fn_call process_numbers [VInt (-10); VInt 5] [] initial_world
  = (Return VNone, mkWorld [] 0%float ["Processing numbers: -10, 5"%string]).
Proof. reflexivity. Qed.

(** [process_numbers(10, -5)] stops at index 1 and prints nothing. *)
Lemma process_numbers_10_minus5 :
  fn_call process_numbers [VInt 10; VInt (-5)] [] initial_world
  = (Raise (ValueError "Argument at index 1 does not satisfy the rule."),
     initial_world).
Proof. reflexivity. Qed.

(** [process_numbers(10, 5)] runs the decorated function. *)
Lemma process_numbers_10_5 :
  fn_call process_numbers [VInt 10; VInt 5] [] initial_world
  = (Return VNone, mkWorld [] 0%float ["Processing numbers: 10, 5"%string]).
Proof. reflexivity. Qed.

(** A rule that raises (here [x > 0] on a string) is neither a pass nor a
    rejection: its exception leaves the wrapper as it is. *)
Lemma process_numbers_rule_raises :
  fn_call process_numbers [VInt 10; VStr "five"] [] initial_world
  = (Raise TypeError, initial_world).
Proof. reflexivity. Qed.

(** C1, as stated, fails where two inputs are rejected: in
    [process_numbers("ten", -5)] the rule paired with index 1 returns [False]
    on [-5], yet the error names index 0, not index 1. *)
Lemma rejected_index_1_reported_as_0 :
  nth_error [VStr "ten"; VInt (-5)] 1 = Some (VInt (-5)) /\
  nth_error [is_int_rule; positive_rule] 1 = Some positive_rule /\
  fn_call positive_rule [VInt (-5)] [] initial_world
    = (Return (VBool false), initial_world) /\
  fn_call (validate_inputs [is_int_rule; positive_rule] process_numbers_undecorated)
      [VStr "ten"; VInt (-5)] [] initial_world
    = (Raise (ValueError (message 0)), initial_world) /\
  fst (fn_call (validate_inputs [is_int_rule; positive_rule] process_numbers_undecorated)
      [VStr "ten"; VInt (-5)] [] initial_world)
    <> Raise (ValueError (message 1)).
Proof.
  repeat split; try reflexivity.
  intros H. vm_compute in H. discriminate H.
Qed.

(** C1, amended: when the input at index [i] is the first one whose paired
    rule returns a false value (every rule before it has returned a true
    one), the call raises the [ValueError] whose message names [i] and no
    other index, in the world the rule at [i] left: the decorated function
    is not called, whatever it is. *)
Theorem first_rejected_input_raises
    rules func args kwargs w i arg rule w_i verdict w' :
  nth_error args i = Some arg ->
  nth_error rules i = Some rule ->
  all_pass (firstn i args) (firstn i rules) w w_i ->
  fn_call rule [arg] [] w_i = (Return verdict, w') ->
  truthy verdict = false ->
  fn_call (validate_inputs rules func) args kwargs w
    = (Raise (ValueError (message i)), w') /\
  (forall j, message j = message i -> j = i) /\
  (forall other,
     fn_call (validate_inputs rules other) args kwargs w
     = fn_call (validate_inputs rules func) args kwargs w).
Proof.
  intros Harg Hrule Hpre Hcall Hfalse.
  assert (Hstop : forall f,
    fn_call (validate_inputs rules f) args kwargs w
    = (Raise (ValueError (message i)), w')).
  { intros f. rewrite call_validated.
    rewrite (nth_error_decompose args i arg Harg) at 1.
    rewrite (nth_error_decompose rules i rule Hrule) at 1.
    unfold enumerate.
    rewrite (loop_stops _ _ _ _ Hpre) with (e := ValueError (message i)) (w' := w').
    - reflexivity.
    - rewrite (firstn_length_nth_error _ _ _ Harg).
      now rewrite (firstn_length_nth_error _ _ _ Hrule).
    - rewrite (firstn_length_nth_error _ _ _ Harg). cbn [Nat.add].
      now apply check_rejects with (verdict := verdict). }
  split; [apply Hstop|]. split.
  - intros j. apply message_inj.
  - intros other. now rewrite !Hstop.
Qed.

Lemma first_rejected_input_raises_witness :
  fn_call process_numbers [VInt 10; VInt (-5)] [("note"%string, VStr "n")] initial_world
    = (Raise (ValueError (message 1)), initial_world).
Proof.
  eapply proj1.
  apply (first_rejected_input_raises
           [is_int_rule; positive_rule] process_numbers_undecorated
           [VInt 10; VInt (-5)] [("note"%string, VStr "n")] initial_world
           1 (VInt (-5)) positive_rule initial_world (VBool false) initial_world).
  - reflexivity.
  - reflexivity.
  - apply pass_step with (verdict := VBool true) (w1 := initial_world).
    + reflexivity.
    + reflexivity.
    + apply pass_no_input.
  - reflexivity.
  - reflexivity.
Defined.

(** Rules that are plain predicates (no effect, no exception) pass together
    as soon as each of them accepts the input it is paired with. *)
Lemma all_pass_predicates (preds : list (value -> bool)) args w :
  (forall i arg p,
     nth_error args i = Some arg -> nth_error preds i = Some p -> p arg = true) ->
  all_pass args (map (fun p => lambda "x" (fun x => ret (VBool (p x)))) preds) w w.
Proof.
  revert preds. induction args as [|arg args IH]; intros [|p preds] Hall.
  - apply pass_no_input.
  - apply pass_no_input.
  - apply pass_no_rule.
  - cbn [map]. apply pass_step with (verdict := VBool (p arg)) (w1 := w).
    + reflexivity.
    + cbn [truthy]. now apply (Hall 0 arg p).
    + apply IH. intros i a q Ha Hq. now apply (Hall (S i) a q).
Qed.



(** Three positional inputs for two rules: the third one is not looked at.
    Two rules for one positional input: the second rule is not asked, and
    [y=-3], given by name, goes to the function unchecked. *)
Lemma unpaired_examples :
  fn_call (validate_inputs
             [is_int_rule; lambda "x" (fun _ => raise (OtherError "RuntimeError" "asked"))]
             (lambda "x" (fun x => ret x)))
      [VInt 7] [] initial_world
    = (Return (VInt 7), initial_world) /\
  fn_call process_numbers [VInt 1; VInt 2; VStr "x"] [] initial_world
    = fn_call process_numbers_undecorated [VInt 1; VInt 2; VStr "x"] []
        initial_world /\
  fn_call process_numbers [VInt 1] [("y"%string, VInt (-3))] initial_world
    = (Return VNone, mkWorld [] 0%float ["Processing numbers: 1, -3"%string]).
Proof. repeat split; reflexivity. Qed.

(** Paired rules that pass still pass when further inputs, or further
    rules, follow: these have no partner. *)
Lemma all_pass_more_inputs args rules w w' (extra_args : list value) :
  all_pass args rules w w' ->
  List.length args = List.length rules ->
  all_pass (args ++ extra_args) rules w w'.
Proof.
  induction 1 as [rules w | args w | arg args rule rules w verdict w1 w' Hcall Htrue _ IH];
    intros Hlen.
  - destruct rules; [apply pass_no_rule | discriminate].
  - apply pass_no_rule.
  - rewrite <- app_comm_cons. eapply pass_step; try eassumption.
    apply IH. now injection Hlen.
Qed.

Lemma all_pass_more_rules args rules w w' (extra_rules : list callable) :
  all_pass args rules w w' ->
  List.length args = List.length rules ->
  all_pass args (rules ++ extra_rules) w w'.
Proof.
  induction 1 as [rules w | args w | arg args rule rules w verdict w1 w' Hcall Htrue _ IH];
    intros Hlen.
  - apply pass_no_input.
  - destruct args; [apply pass_no_input | discriminate].
  - rewrite <- app_comm_cons. eapply pass_step; try eassumption.
    apply IH. now injection Hlen.
Qed.

(** C5: when the paired inputs pass their rules, any further positional
    inputs are handed to the decorated function with the paired ones,
    unvalidated, and any further rules are not evaluated and cannot fail the
    call: either way the call is the plain call on all the inputs.  Whether
    or not the paired rules pass, the rules beyond the last input can be
    dropped without changing the call, and the validation is the one of the
    inputs that have a rule. *)
Theorem unpaired_rules_and_inputs_take_no_part
    paired_args paired_rules func kwargs w w' :
  List.length paired_args = List.length paired_rules ->
  all_pass paired_args paired_rules w w' ->
  (forall extra_args,
     fn_call (validate_inputs paired_rules func) (paired_args ++ extra_args) kwargs w
     = fn_call func (paired_args ++ extra_args) kwargs w') /\
  (forall extra_rules,
     fn_call (validate_inputs (paired_rules ++ extra_rules) func) paired_args kwargs w
     = fn_call func paired_args kwargs w') /\
  (forall rules args w0,
     fn_call (validate_inputs rules func) args kwargs w0
     = fn_call (validate_inputs (firstn (List.length args) rules) func)
         args kwargs w0) /\
  (forall rules args w0,
     fn_call (validate_inputs rules func) args kwargs w0
     = fn_call (validate_inputs rules (with_inputs func args kwargs))
         (firstn (List.length rules) args) kwargs w0).
Proof.
  intros Hlen Hpass. repeat split.
  - intros extra_args. rewrite call_validated. unfold enumerate.
    now rewrite (loop_passes _ _ _ _ (all_pass_more_inputs _ _ _ _ extra_args Hpass Hlen)).
  - intros extra_rules. rewrite call_validated. unfold enumerate.
    now rewrite (loop_passes _ _ _ _ (all_pass_more_rules _ _ _ _ extra_rules Hpass Hlen)).
  - intros rules args w0. rewrite !call_validated. unfold zip.
    now rewrite combine_firstn_r.
  - intros rules args w0. rewrite !call_validated. unfold zip.
    rewrite combine_firstn_l. reflexivity.
Qed.

(** One rule for three inputs: the string and [None] reach [test_var_args],
    which prints them, though neither is an [int]. *)
Lemma unpaired_rules_and_inputs_take_no_part_witness :
  fn_call (validate_inputs [is_int_rule] ArgsKwargs.test_var_args)
      [VInt 1; VStr "x"; VNone] [] initial_world
  = (Return VNone,
     mkWorld [] 0%float
       ["first normal arg: 1"%string; "another arg through *argv: x"%string;
        "another arg through *argv: None"%string]).
Proof.
  destruct (unpaired_rules_and_inputs_take_no_part
              [VInt 1] [is_int_rule] ArgsKwargs.test_var_args [] initial_world
              initial_world)
    as [Hinputs _].
  - reflexivity.
  - apply pass_step with (verdict := VBool true) (w1 := initial_world);
      [reflexivity | reflexivity | apply pass_no_input].
  - exact (Hinputs [VStr "x"; VNone]).
Defined.

(** C6: when the paired rules pass, the call is the plain call whatever the
    keyword inputs are, and the decorated function receives them as they
    were given: no value passed by name can make the validation fail.
    Whether or not the rules pass, the validation is the same under any
    other keyword inputs. *)
Theorem keyword_inputs_are_not_validated rules func args w w' :
  all_pass args rules w w' ->
  (forall kwargs,
     fn_call (validate_inputs rules func) args kwargs w
     = fn_call func args kwargs w') /\
  (forall kwargs kwargs' w0,
     fn_call (validate_inputs rules func) args kwargs w0
     = fn_call (validate_inputs rules (with_inputs func args kwargs))
         args kwargs' w0).
Proof.
  intros Hpass. split.
  - intros kwargs. rewrite call_validated. unfold enumerate.
    now rewrite (loop_passes _ _ _ _ Hpass).
  - intros kwargs kwargs' w0. rewrite !call_validated. reflexivity.
Qed.

(** [process_numbers(1, y=-3)]: the second rule would reject [-3], but
    [y] comes by name and reaches the function. *)
Lemma keyword_inputs_are_not_validated_witness :
  fn_call process_numbers [VInt 1] [("y"%string, VInt (-3))] initial_world
  = (Return VNone, mkWorld [] 0%float ["Processing numbers: 1, -3"%string]).
Proof.
  destruct (keyword_inputs_are_not_validated
              [is_int_rule; positive_rule] process_numbers_undecorated
              [VInt 1] initial_world initial_world)
    as [Hforward _].
  - apply pass_step with (verdict := VBool true) (w1 := initial_world);
      [reflexivity | reflexivity | apply pass_no_input].
  - exact (Hforward [("y"%string, VInt (-3))]).
Defined.

(** C9, as stated, fails when a rule before the rejections raises: with
    three rules [x > 0] and the inputs ["a"], [-1], [-2], the rules at
    indices 1 and 2 return [False] on their inputs, yet the first rule
    raises [TypeError] on ["a"] and the call ends with that error, which
    names no index. *)
Lemma two_rejections_behind_a_raising_rule :
  fn_call positive_rule [VInt (-1)] [] initial_world
    = (Return (VBool false), initial_world) /\
  fn_call positive_rule [VInt (-2)] [] initial_world
    = (Return (VBool false), initial_world) /\
  fn_call positive_rule [VStr "a"] [] initial_world
    = (Raise TypeError, initial_world) /\
  fn_call (validate_inputs [positive_rule; positive_rule; positive_rule]
             process_numbers_undecorated)
      [VStr "a"; VInt (-1); VInt (-2)] [] initial_world
    = (Raise TypeError, initial_world) /\
  fst (fn_call (validate_inputs [positive_rule; positive_rule; positive_rule]
                  process_numbers_undecorated)
         [VStr "a"; VInt (-1); VInt (-2)] [] initial_world)
    <> Raise (ValueError (message 1)).
Proof. repeat split; try reflexivity. cbn. discriminate. Qed.

(** C9, amended: when the rules before an index pass (each returns a true
    value, none raises) and the rule at that index
    returns a false value, the call raises the [ValueError] for that index in
    the world that rule left, whatever the later inputs, the later rules and
    the decorated function are: none of them is evaluated, so later
    rejections are never reported. *)
Theorem smallest_rejected_index_is_reported
    pre_args pre_rules arg rule rest_args rest_rules func kwargs w w_i verdict w' :
  List.length pre_args = List.length pre_rules ->
  all_pass pre_args pre_rules w w_i ->
  fn_call rule [arg] [] w_i = (Return verdict, w') ->
  truthy verdict = false ->
  fn_call (validate_inputs (pre_rules ++ rule :: rest_rules) func)
      (pre_args ++ arg :: rest_args) kwargs w
    = (Raise (ValueError (message (List.length pre_args))), w') /\
  (forall rest_args' rest_rules' func',
     fn_call (validate_inputs (pre_rules ++ rule :: rest_rules') func')
       (pre_args ++ arg :: rest_args') kwargs w
     = fn_call (validate_inputs (pre_rules ++ rule :: rest_rules) func)
         (pre_args ++ arg :: rest_args) kwargs w).
Proof.
  intros Hlen Hpre Hcall Hfalse.
  assert (Hstop : forall ra rr f,
    fn_call (validate_inputs (pre_rules ++ rule :: rr) f)
      (pre_args ++ arg :: ra) kwargs w
    = (Raise (ValueError (message (List.length pre_args))), w')).
  { intros ra rr f. rewrite call_validated. unfold enumerate.
    rewrite (loop_stops _ _ _ _ Hpre Hlen) with
      (e := ValueError (message (List.length pre_args))) (w' := w').
    - reflexivity.
    - cbn [Nat.add]. now apply check_rejects with (verdict := verdict). }
  split; [apply Hstop|].
  intros ra rr f. now rewrite !Hstop.
Qed.

(** Inputs 1 and 2 are both rejected; index 1 is the one reported. *)
Lemma smallest_rejected_index_is_reported_witness :
  fn_call (validate_inputs [is_int_rule; positive_rule; positive_rule]
             process_numbers_undecorated)
      [VInt 1; VInt (-1); VInt (-2)] [] initial_world
    = (Raise (ValueError (message 1)), initial_world).
Proof.
  eapply proj1.
  apply (smallest_rejected_index_is_reported
           [VInt 1] [is_int_rule] (VInt (-1)) positive_rule
           [VInt (-2)] [positive_rule] process_numbers_undecorated []
           initial_world initial_world (VBool false) initial_world).
  - reflexivity.
  - apply pass_step with (verdict := VBool true) (w1 := initial_world);
      [reflexivity | reflexivity | apply pass_no_input].
  - reflexivity.
  - reflexivity.
Defined.

(** A rule that raises before any rejection ends the call with its own
    exception; the decorated function is not called either. *)
Lemma raising_rule_propagates
    pre_args pre_rules arg rule rest_args rest_rules func kwargs w w_i e w' :
  List.length pre_args = List.length pre_rules ->
  all_pass pre_args pre_rules w w_i ->
  fn_call rule [arg] [] w_i = (Raise e, w') ->
  fn_call (validate_inputs (pre_rules ++ rule :: rest_rules) func)
      (pre_args ++ arg :: rest_args) kwargs w
    = (Raise e, w').
Proof.
  intros Hlen Hpre Hcall. rewrite call_validated. unfold enumerate.
  rewrite (loop_stops _ _ _ _ Hpre Hlen) with (e := e) (w' := w').
  - reflexivity.
  - now apply check_propagates.
Qed.

End ValidationFacts.

(** ** The timing decorator *)

Section TimingFacts.

Import InputValidation Timing.

Variable float_repr : float -> string.

(** What a call of the timed function does, in terms of the call of the
    function it wraps. *)
Lemma call_timed func args kwargs w :
  fn_call (timeit float_repr func) args kwargs w
  = match fn_call func args kwargs w with
    | (Return result, w1) =>
        match fn_name func with
        | Some name =>
            (Return result,
             mkWorld (globals w1) (clock w1)
               (stdout w1 ++ [report float_repr name (clock w) (clock w1)]))
        | None => (Raise AttributeError, w1)
        end
    | (Raise e, w1) => (Raise e, w1)
    end.
Proof.
  cbn [timeit functools_wraps fn_call]. unfold wrapper, bind, time_time, getattr_name.
  destruct (fn_call func args kwargs w) as [[result | e] w1];
    destruct (fn_name func); reflexivity.
Qed.

(** [functools.wraps] keeps the name of the decorated function; the timed
    function is a function and always has a name. *)
Lemma timeit_keeps_name func name :
  fn_name func = Some name -> fn_name (timeit float_repr func) = Some name.
Proof. intros H. cbn [timeit functools_wraps fn_name]. now rewrite H. Qed.

(** C3: when the decorated function raises, the timed call raises the same
    exception and ends in the very world the function left: nothing is
    printed, so no timing report is emitted. *)
Theorem timeit_propagates_failure func args kwargs w e w1 :
  fn_call func args kwargs w = (Raise e, w1) ->
  fn_call (timeit float_repr func) args kwargs w = (Raise e, w1).
Proof. intros Hcall. rewrite call_timed. now rewrite Hcall. Qed.

(** C4, amended: when the decorated callable has a [__name__] and returns,
    the timed call returns the same value; the world is the one the callable
    left with one more line printed, the timing report. *)
Theorem timeit_returns_target_result func name args kwargs w result w1 :
  fn_name func = Some name ->
  fn_call func args kwargs w = (Return result, w1) ->
  fn_call (timeit float_repr func) args kwargs w
  = (Return result,
     mkWorld (globals w1) (clock w1)
       (stdout w1 ++ [report float_repr name (clock w) (clock w1)])).
Proof. intros Hname Hcall. rewrite call_timed. now rewrite Hcall, Hname. Qed.

(** A callable without [__name__] that returns: the timed call has run it,
    then raises [AttributeError] in the world it left, without a report. *)
Lemma timeit_nameless_target func args kwargs w result w1 :
  fn_name func = None ->
  fn_call func args kwargs w = (Return result, w1) ->
  fn_call (timeit float_repr func) args kwargs w = (Raise AttributeError, w1).
Proof. intros Hname Hcall. rewrite call_timed. now rewrite Hcall, Hname. Qed.

(** C7, amended: both decorators hand the caller's positional and keyword
    inputs to the decorated callable as they are, and hand its outcome back
    as it is, the timing wrapper doing so when the callable has a
    [__name__].  The validating wrapper, once the paired rules have passed,
    is the plain call in the world the rules left; the timing wrapper runs
    the plain call in the caller's world, leaves the globals and the clock
    as that call left them and, for a named callable, has its outcome. *)
Theorem decorators_forward_inputs_and_outcome rules func args kwargs w w' :
  all_pass args rules w w' ->
  fn_call (validate_inputs rules func) args kwargs w
    = fn_call func args kwargs w' /\
  (fn_name func <> None ->
   fst (fn_call (timeit float_repr func) args kwargs w)
     = fst (fn_call func args kwargs w)) /\
  globals (snd (fn_call (timeit float_repr func) args kwargs w))
    = globals (snd (fn_call func args kwargs w)) /\
  clock (snd (fn_call (timeit float_repr func) args kwargs w))
    = clock (snd (fn_call func args kwargs w)).
Proof.
  intros Hpass. split.
  - rewrite call_validated. unfold enumerate.
    now rewrite (loop_passes _ _ _ _ Hpass).
  - rewrite call_timed.
    destruct (fn_call func args kwargs w) as [[result | e] w1];
      destruct (fn_name func) as [name|];
      repeat split; try reflexivity; intros H; now contradiction H.
Qed.

(** C8, amended: for a callable with a [__name__] that returns, the duration
    in the report is the binary64 difference between the reading of the wall
    clock taken right after the callable returned and the reading taken
    right before it was called. *)
Theorem timeit_reports_clock_difference func name args kwargs w result w1 :
  fn_name func = Some name ->
  fn_call func args kwargs w = (Return result, w1) ->
  stdout (snd (fn_call (timeit float_repr func) args kwargs w))
  = stdout w1
    ++ [(name ++ " executed in " ++ float_repr (clock w1 - clock w)%float
              ++ " seconds.")%string].
Proof. intros Hname Hcall. rewrite call_timed. now rewrite Hcall, Hname. Qed.

End TimingFacts.

(** The script's call [long_running_task()] with a punctual sleep: the
    task prints its line, then the report is printed. *)
Lemma long_running_task_run (float_repr : float -> string) :
  fn_call (Timing.long_running_task float_repr Timing.punctual_sleep) [] []
      initial_world
  = (Return VNone,
     mkWorld [] 2%float
       ["Task completed."%string;
        ("long_running_task executed in " ++ float_repr 2%float ++ " seconds.")%string]).
Proof. reflexivity. Qed.

Lemma timeit_propagates_failure_witness :
  fn_call (Timing.timeit (fun _ => "2.0"%string)
             (Timing.long_running_task_undecorated Timing.punctual_sleep))
      [VInt 1] [] initial_world
  = (Raise TypeError, initial_world).
Proof.
  apply (timeit_propagates_failure (fun _ => "2.0"%string)
           (Timing.long_running_task_undecorated Timing.punctual_sleep)
           [VInt 1] [] initial_world TypeError initial_world).
  reflexivity.
Defined.

(** C4, as stated, fails for a callable without [__name__]: the plain call
    [functools.partial(lambda x: x)(3)] returns 3, the timed call raises
    [AttributeError] and the caller gets no result. *)
Lemma timeit_partial_loses_result :
  fn_call (functools_partial (lambda "x" (fun x => ret x)) []) [VInt 3] []
      initial_world
    = (Return (VInt 3), initial_world) /\
  fn_call (Timing.timeit (fun _ => "0.0"%string)
             (functools_partial (lambda "x" (fun x => ret x)) []))
      [VInt 3] [] initial_world
    = (Raise AttributeError, initial_world).
Proof. split; reflexivity. Qed.

Lemma timeit_nameless_target_witness :
  fn_call (Timing.timeit (fun _ => "0.0"%string)
             (functools_partial InputValidation.positive_rule []))
      [VInt 3] [] initial_world
  = (Raise AttributeError, initial_world).
Proof.
  apply (timeit_nameless_target (fun _ => "0.0"%string)
           (functools_partial InputValidation.positive_rule [])
           [VInt 3] [] initial_world (VBool true) initial_world).
  - reflexivity.
  - reflexivity.
Defined.

Lemma timeit_returns_target_result_witness :
  fn_call (Timing.timeit (fun _ => "2.0"%string)
             (Timing.long_running_task_undecorated Timing.punctual_sleep))
      [] [] initial_world
  = (Return VNone,
     mkWorld [] 2%float
       ["Task completed."%string;
        "long_running_task executed in 2.0 seconds."%string]).
Proof.
  apply (timeit_returns_target_result (fun _ => "2.0"%string)
           (Timing.long_running_task_undecorated Timing.punctual_sleep)
           "long_running_task"%string [] [] initial_world
           VNone (mkWorld [] 2%float ["Task completed."%string])).
  - reflexivity.
  - reflexivity.
Defined.

(** C7, as stated, fails for the timing wrapper around a callable without
    [__name__]: [functools.partial(process_numbers, 10)(5)] prints and
    returns [None]; timed, the same call prints the same line and the caller
    receives [AttributeError] instead of that output. *)
Lemma timeit_partial_replaces_output :
  fn_call (functools_partial InputValidation.process_numbers_undecorated [VInt 10])
      [VInt 5] [] initial_world
    = (Return VNone, mkWorld [] 0%float ["Processing numbers: 10, 5"%string]) /\
  fn_call (Timing.timeit (fun _ => "0.0"%string)
             (functools_partial InputValidation.process_numbers_undecorated [VInt 10]))
      [VInt 5] [] initial_world
    = (Raise AttributeError, mkWorld [] 0%float ["Processing numbers: 10, 5"%string]) /\
  fst (fn_call (Timing.timeit (fun _ => "0.0"%string)
                  (functools_partial InputValidation.process_numbers_undecorated
                     [VInt 10]))
         [VInt 5] [] initial_world)
    <> fst (fn_call (functools_partial InputValidation.process_numbers_undecorated
                       [VInt 10])
              [VInt 5] [] initial_world).
Proof. repeat split; try reflexivity. cbn. discriminate. Qed.

Lemma decorators_forward_inputs_and_outcome_witness :
  fn_call InputValidation.process_numbers [VInt 10; VInt 5] [] initial_world
    = fn_call InputValidation.process_numbers_undecorated [VInt 10; VInt 5] []
        initial_world /\
  fst (fn_call (Timing.timeit (fun _ => "0.0"%string)
                  InputValidation.process_numbers_undecorated)
         [VInt 10; VInt 5] [] initial_world)
    = Return VNone.
Proof.
  destruct (decorators_forward_inputs_and_outcome (fun _ => "0.0"%string)
              [InputValidation.is_int_rule; InputValidation.positive_rule]
              InputValidation.process_numbers_undecorated
              [VInt 10; VInt 5] [] initial_world initial_world)
    as (Hv & Ht & _).
  - apply InputValidation.pass_step
      with (verdict := VBool true) (w1 := initial_world);
      [reflexivity | reflexivity |].
    apply InputValidation.pass_step
      with (verdict := VBool true) (w1 := initial_world);
      [reflexivity | reflexivity |].
    apply InputValidation.pass_no_input.
  - split; [exact Hv | apply Ht; discriminate].
Defined.

(** C8, as stated, fails when the wall clock is set back during the call:
    the task sleeps its two seconds while the clock is set back by three, so
    the reading after the call is one second before the reading at its
    start; the call succeeds and reports [-1.0], which is negative and below
    the two seconds the task blocked. *)
Lemma reported_duration_after_clock_set_back :
  fn_call (Timing.long_running_task_undecorated (Timing.sleep_with_clock_set_back 3))
      [] [] initial_world
    = (Return VNone, mkWorld [] (-1)%float ["Task completed."%string]) /\
  fn_call (Timing.timeit (fun _ => "-1.0"%string)
             (Timing.long_running_task_undecorated
                (Timing.sleep_with_clock_set_back 3)))
      [] [] initial_world
    = (Return VNone,
       mkWorld [] (-1)%float
         ["Task completed."%string;
          Timing.report (fun _ => "-1.0"%string) "long_running_task"
            (clock initial_world) (-1)%float]) /\
  (0 <=? (-1) - clock initial_world)%float = false /\
  (2 <=? (-1) - clock initial_world)%float = false.
Proof. repeat split; reflexivity. Qed.

Lemma timeit_reports_clock_difference_witness :
  stdout (snd (fn_call (Timing.timeit (fun _ => "2.0"%string)
                          (Timing.long_running_task_undecorated Timing.punctual_sleep))
                 [] [] initial_world))
  = ["Task completed."%string; "long_running_task executed in 2.0 seconds."%string].
Proof.
  apply (timeit_reports_clock_difference (fun _ => "2.0"%string)
           (Timing.long_running_task_undecorated Timing.punctual_sleep)
           "long_running_task"%string [] [] initial_world
           VNone (mkWorld [] 2%float ["Task completed."%string])).
  - reflexivity.
  - reflexivity.
Defined.

(** ** The two Fibonacci loops *)

Section GeneratorFacts.

Import Generators.

Local Open Scope Z_scope.

Lemma range_length (n : Z) : List.length (range n) = Z.to_nat n.
Proof. unfold range. now rewrite length_map, length_seq. Qed.

(** The eager loop appends to [result] what [fibs_from] lists. *)
Lemma fold_loop_body (items : list Z) (a b : Z) (result : list Z) :
  var_result (fold_left loop_body items (mkLocals a b result))
  = result ++ fibs_from a b (List.length items).
Proof.
  revert a b result.
  induction items as [|i items IH]; intros a b result; cbn [fold_left List.length fibs_from].
  - now rewrite app_nil_r.
  - unfold loop_body at 2. cbn [var_a var_b var_result].
    rewrite IH. now rewrite <- app_assoc.
Qed.

Lemma fibon_normal_fibs_from (n : Z) :
  fibon_normal n = fibs_from 1 1 (Z.to_nat n).
Proof.
  unfold fibon_normal. rewrite fold_loop_body. now rewrite range_length.
Qed.

(** Draining a generator from the loop head yields what [fibs_from] lists,
    as soon as there is one more call of [next] than items left. *)
Lemma collect_loop_head (pending : list Z) (a b : Z) (spare : nat) :
  match loop_head a b pending with
  | (None, _) => Some []
  | (Some x, gen') =>
      option_map (cons x) (collect (List.length pending + spare) gen')
  end = Some (fibs_from a b (List.length pending)).
Proof.
  revert a b.
  induction pending as [|i pending IH]; intros a b; cbn [loop_head List.length fibs_from].
  - reflexivity.
  - destruct pending as [|i' pending'].
    + cbn [List.length Nat.add collect next loop_head fibs_from option_map].
      reflexivity.
    + specialize (IH b (a + b)).
      cbn [List.length Nat.add collect next] in *.
      cbn [loop_head] in *. rewrite IH. reflexivity.
Qed.

Lemma collect_fibon_generator (n : Z) (spare : nat) :
  collect (S (Z.to_nat n) + spare) (fibon_generator n)
  = Some (fibs_from 1 1 (Z.to_nat n)).
Proof.
  unfold fibon_generator. cbn [Nat.add collect next].
  rewrite <- (range_length n). apply collect_loop_head.
Qed.

(** Started from two consecutive Fibonacci numbers, the loop lists the
    following ones. *)
Lemma fibs_from_fib (k turns : nat) :
  fibs_from (fib k) (fib (S k)) turns = map fib (seq k turns).
Proof.
  revert k. induction turns as [|turns IH]; intros k; cbn [fibs_from seq map].
  - reflexivity.
  - f_equal. rewrite <- IH. reflexivity.
Qed.

(** C10: for every [n], draining [fibon_generator(n)] ends (one more call of
    [next] than there are values is enough, and more change nothing) and
    yields the list that [fibon_normal(n)] returns; that list holds the first
    [n] Fibonacci numbers starting 1, 1 (none when [n <= 0]). *)
Theorem fibon_generator_yields_fibon_normal (n : Z) (spare : nat) :
  collect (S (Z.to_nat n) + spare) (fibon_generator n) = Some (fibon_normal n) /\
  fibon_normal n = map fib (seq 0 (Z.to_nat n)) /\
  List.length (fibon_normal n) = Z.to_nat n.
Proof.
  assert (Hfib : fibon_normal n = map fib (seq 0 (Z.to_nat n))).
  { rewrite fibon_normal_fibs_from. apply (fibs_from_fib 0). }
  repeat split.
  - rewrite collect_fibon_generator. now rewrite fibon_normal_fibs_from.
  - exact Hfib.
  - rewrite Hfib. now rewrite length_map, length_seq.
Qed.

(** The first values: [list(fibon_generator(6))] and [fibon_normal(6)]. *)
Lemma fibon_six :
  collect 7 (fibon_generator 6) = Some [1; 1; 2; 3; 5; 8] /\
  fibon_normal 6 = [1; 1; 2; 3; 5; 8].
Proof. split; reflexivity. Qed.

(** The generator is lazy: each call of [next] yields one value, and the
    call after the last value reports the end. *)
Lemma fibon_generator_steps :
  let g0 := fibon_generator 2 in
  let '(x1, g1) := next g0 in
  let '(x2, g2) := next g1 in
  let '(x3, g3) := next g2 in
  (x1, x2, x3, g3) = (Some 1, Some 1, None, Finished).
Proof. reflexivity. Qed.

End GeneratorFacts.

(** ** More on the two decorators *)

Section DecoratorExtras.

Import InputValidation Timing.

Variable float_repr : float -> string.

Variable clock_after_sleep : float -> world -> float.

Lemma raising_rule_propagates_witness :
  fn_call process_numbers [VInt 10; VStr "five"] [] initial_world
  = (Raise TypeError, initial_world).
Proof.
  apply (raising_rule_propagates
           [VInt 10] [is_int_rule] (VStr "five") positive_rule [] []
           process_numbers_undecorated [] initial_world initial_world
           TypeError initial_world).
  - reflexivity.
  - apply pass_step with (verdict := VBool true) (w1 := initial_world);
      [reflexivity | reflexivity | apply pass_no_input].
  - reflexivity.
Defined.

(** A call that gives every input by name is not validated at all: it is the
    plain call.  So [process_numbers(x=..., y=...)] prints any two values. *)
Theorem call_by_name_skips_validation rules func kwargs x y w :
  fn_call (validate_inputs rules func) [] kwargs w = fn_call func [] kwargs w /\
  fn_call process_numbers [] [("x"%string, x); ("y"%string, y)] w
  = (Return VNone,
     mkWorld (globals w) (clock w)
       (stdout w
        ++ [("Processing numbers: " ++ str_value x ++ ", " ++ str_value y)%string])).
Proof. split; reflexivity. Qed.

(** What [process_numbers(x, y)] does for two positional inputs that are
    each [None], a [bool], an [int] or a string (the values of this
    development; a [float], say, is not among them): it prints its line and
    returns [None] when [x] is an [int] (a [bool] counts, and so does a
    negative number) and [y] is an [int] above zero or [True]; when [x] is
    [None] or a string index 0 is reported; else a [y] that is an [int] not
    above zero or [False] is reported at index 1, and a [y] that is [None]
    or a string raises [TypeError] from the comparison with [0].  Nothing is
    printed unless the call returns. *)
Theorem process_numbers_on_two_inputs x y w :
  fn_call process_numbers [x; y] [] w
  = let printed :=
      mkWorld (globals w) (clock w)
        (stdout w
         ++ [("Processing numbers: " ++ str_value x ++ ", " ++ str_value y)%string]) in
    match x with
    | VInt _ | VBool _ =>
        match y with
        | VInt z =>
            if (0 <? z)%Z then (Return VNone, printed)
            else (Raise (ValueError (message 1)), w)
        | VBool true => (Return VNone, printed)
        | VBool false => (Raise (ValueError (message 1)), w)
        | VNone | VStr _ => (Raise TypeError, w)
        end
    | VNone | VStr _ => (Raise (ValueError (message 0)), w)
    end.
Proof.
  unfold process_numbers. rewrite call_validated.
  destruct x as [| bx | zx | sx]; destruct y as [| [|] | zy | sy];
    try reflexivity;
    cbv [enumerate zip enumerate_from combine seq List.length for_each check
         bind fn_call is_int_rule positive_rule lambda ret raise truthy negb];
    destruct (0 <? zy)%Z; reflexivity.
Qed.

(** Stacking [timeit] on a validated function: when the rules pass and the
    function returns, the report carries the name of the function itself
    ([functools.wraps] hands it on; [wrapper] for a callable without a
    name), and it is printed after everything the rules and the function
    printed; when an input is rejected the [ValueError] comes out and no
    report is printed. *)
Theorem timed_validated_call rules func args kwargs w w1 :
  all_pass args rules w w1 ->
  (forall result w2,
     fn_call func args kwargs w1 = (Return result, w2) ->
     fn_call (timeit float_repr (validate_inputs rules func)) args kwargs w
     = (Return result,
        mkWorld (globals w2) (clock w2)
          (stdout w2
           ++ [report float_repr
                 (match fn_name func with
                  | Some name => name
                  | None => "wrapper"%string
                  end)
                 (clock w) (clock w2)]))) /\
  (forall arg rule rest_args rest_rules verdict w2,
     List.length args = List.length rules ->
     fn_call rule [arg] [] w1 = (Return verdict, w2) ->
     truthy verdict = false ->
     fn_call (timeit float_repr (validate_inputs (rules ++ rule :: rest_rules) func))
       (args ++ arg :: rest_args) kwargs w
     = (Raise (ValueError (message (List.length args))), w2)).
Proof.
  intros Hpass. split.
  - intros result w2 Hcall. rewrite call_timed, call_validated. unfold enumerate.
    rewrite (loop_passes _ _ _ _ Hpass), Hcall.
    cbn [validate_inputs decorator functools_wraps fn_name].
    destruct (fn_name func); reflexivity.
  - intros arg rule rest_args rest_rules verdict w2 Hlen Hcall Hfalse.
    rewrite call_timed, call_validated. unfold enumerate.
    rewrite (loop_stops _ _ _ _ Hpass Hlen) with
      (e := ValueError (message (List.length args))) (w' := w2).
    + reflexivity.
    + cbn [Nat.add]. now apply check_rejects with (verdict := verdict).
Qed.

(** [long_running_task()] in any world returns [None] and prints the
    task's line before the report; the clock is left at the reading it had
    when the sleep ended, and the report gives the difference between that
    reading and the one at the call.  Called with any argument it raises
    [TypeError] before the task starts, so nothing sleeps, the clock is not
    touched and there is no report. *)
Theorem long_running_task_calls args kwargs w :
  fn_call (long_running_task float_repr clock_after_sleep) args kwargs w
  = match args, kwargs with
    | [], [] =>
        (Return VNone,
         mkWorld (globals w) (clock_after_sleep 2 w)
           (stdout w
            ++ ["Task completed."%string;
                ("long_running_task executed in "
                 ++ float_repr (clock_after_sleep 2 w - clock w)%float
                 ++ " seconds.")%string]))
    | _, _ => (Raise TypeError, w)
    end.
Proof.
  unfold long_running_task. rewrite call_timed.
  destruct args as [|a args]; destruct kwargs as [|k kwargs]; try reflexivity.
  cbv [long_running_task_undecorated fn_call fn_name bind time_sleep print ret
       globals clock stdout report].
  now rewrite <- app_assoc.
Qed.

End DecoratorExtras.

Lemma timed_validated_call_witness :
  fn_call (Timing.timeit (fun _ => "0.0"%string) InputValidation.process_numbers)
      [VInt 10; VInt 5] [] initial_world
  = (Return VNone,
     mkWorld [] 0%float
       ["Processing numbers: 10, 5"%string;
        "process_numbers executed in 0.0 seconds."%string]).
Proof.
  destruct (timed_validated_call (fun _ => "0.0"%string)
              [InputValidation.is_int_rule; InputValidation.positive_rule]
              InputValidation.process_numbers_undecorated
              [VInt 10; VInt 5] [] initial_world initial_world)
    as [Hreturn _].
  - apply InputValidation.pass_step
      with (verdict := VBool true) (w1 := initial_world);
      [reflexivity | reflexivity |].
    apply InputValidation.pass_step
      with (verdict := VBool true) (w1 := initial_world);
      [reflexivity | reflexivity |].
    apply InputValidation.pass_no_input.
  - apply (Hreturn VNone
             (mkWorld [] 0%float ["Processing numbers: 10, 5"%string])).
    reflexivity.
Defined.

(** ** More on the generators *)

Section GeneratorExtras.

Import Generators GeneratorSteps.

Local Open Scope Z_scope.

Lemma skipn_succ_tl {A} (k : nat) (l : list A) : skipn (S k) l = tl (skipn k l).
Proof.
  revert l. induction k as [|k IH]; intros [|x l]; try reflexivity.
  exact (IH l).
Qed.

Lemma skipn_nil_iff {A} (k : nat) (l : list A) :
  skipn k l = [] <-> (List.length l <= k)%nat.
Proof.
  split.
  - intros H. apply (f_equal (@List.length A)) in H.
    rewrite length_skipn in H. simpl in H. lia.
  - apply skipn_all2.
Qed.

Lemma advance_succ (k : nat) (gen : frame) :
  advance (S k) gen = snd (next (advance k gen)).
Proof.
  revert gen. induction k as [|k IH]; intros gen; [reflexivity|].
  change (advance (S (S k)) gen) with (advance (S k) (snd (next gen))).
  now rewrite IH.
Qed.

(** After [k + 1] calls the generator is suspended with the Fibonacci
    numbers [k] and [k + 1] in [a] and [b], or finished when the range had
    no more than [k] items. *)
Lemma advance_fibon_generator (n : Z) (k : nat) :
  advance (S k) (fibon_generator n)
  = match skipn k (range n) with
    | [] => Finished
    | _ :: rest => Suspended (fib k) (fib (S k)) rest
    end.
Proof.
  induction k as [|k IH].
  - cbn [advance skipn]. unfold fibon_generator. cbn [next].
    destruct (range n); reflexivity.
  - rewrite advance_succ, IH, skipn_succ_tl.
    destruct (skipn k (range n)) as [|i rest]; [reflexivity|].
    cbn [next tl]. destruct rest as [|j rest]; [reflexivity|].
    reflexivity.
Qed.

(** The call number [k] of [next] (counting from 0) on [fibon_generator(n)]
    yields the Fibonacci number [k] when [k < n]; every call from the one
    numbered [n] on reports the end, however often it is repeated. *)
Theorem fibon_generator_next_call (n : Z) (k : nat) :
  fst (next (advance k (fibon_generator n)))
  = if (k <? Z.to_nat n)%nat then Some (fib k) else None.
Proof.
  assert (Hmatch : fst (next (advance k (fibon_generator n)))
                   = match skipn k (range n) with
                     | [] => None
                     | _ :: _ => Some (fib k)
                     end).
  { destruct k as [|k].
    - cbn [advance skipn]. unfold fibon_generator. cbn [next].
      destruct (range n); reflexivity.
    - rewrite advance_fibon_generator, skipn_succ_tl.
      destruct (skipn k (range n)) as [|i rest]; [reflexivity|].
      cbn [next tl]. destruct rest; reflexivity. }
  rewrite Hmatch. rewrite <- (range_length n).
  destruct (k <? List.length (range n))%nat eqn:Hk.
  - apply Nat.ltb_lt in Hk.
    destruct (skipn k (range n)) eqn:Hskip; [|reflexivity].
    apply skipn_nil_iff in Hskip. lia.
  - apply Nat.ltb_ge in Hk. apply skipn_nil_iff in Hk. now rewrite Hk.
Qed.

Lemma counter_advance_succ (k : nat) (gen : counter_frame) :
  counter_advance (S k) gen = snd (counter_next (counter_advance k gen)).
Proof.
  revert gen. induction k as [|k IH]; intros gen; [reflexivity|].
  change (counter_advance (S (S k)) gen)
    with (counter_advance (S k) (snd (counter_next gen))).
  now rewrite IH.
Qed.

Lemma counter_advance_created (stop : Z) (k : nat) :
  counter_advance (S k) (CounterCreated stop)
  = match skipn k (range stop) with
    | [] => CounterFinished
    | _ :: rest => CounterSuspended rest
    end.
Proof.
  induction k as [|k IH].
  - cbn [counter_advance skipn counter_next]. destruct (range stop); reflexivity.
  - rewrite counter_advance_succ, IH, skipn_succ_tl.
    destruct (skipn k (range stop)) as [|i rest]; [reflexivity|].
    cbn [counter_next tl]. destruct rest; reflexivity.
Qed.

(** A generator whose body is [for i in range(stop): yield i] (both
    definitions of [generator_function]) yields [k] at the call number [k]
    of [next] when [k < stop], and reports the end at every later call. *)
Theorem generator_function_next_call (stop : Z) (k : nat) :
  fst (counter_next (counter_advance k (CounterCreated stop)))
  = if (k <? Z.to_nat stop)%nat then Some (Z.of_nat k) else None.
Proof.
  assert (Hhead : fst (counter_next (counter_advance k (CounterCreated stop)))
                  = hd_error (skipn k (range stop))).
  { destruct k as [|k].
    - cbn [counter_advance skipn counter_next]. destruct (range stop); reflexivity.
    - rewrite counter_advance_created, skipn_succ_tl.
      destruct (skipn k (range stop)) as [|i rest]; [reflexivity|].
      cbn [counter_next tl]. destruct rest; reflexivity. }
  rewrite Hhead, hd_error_skipn. unfold range.
  rewrite nth_error_map, nth_error_seq.
  destruct (k <? Z.to_nat stop)%nat; reflexivity.
Qed.

(** The script's calls: three values, then the end. *)
Lemma generator_function_four_calls :
  map (fun k => fst (counter_next (counter_advance k generator_function)))
      [0; 1; 2; 3]%nat
  = [Some 0; Some 1; Some 2; None].
Proof. reflexivity. Qed.

Lemma fibs_from_nth (j turns k : nat) :
  (k < turns)%nat ->
  nth k (fibs_from (fib j) (fib (S j)) turns) 0 = fib (j + k).
Proof.
  revert j turns. induction k as [|k IH]; intros j [|turns] Hk; try lia.
  - cbn [fibs_from nth]. now rewrite Nat.add_0_r.
  - cbn [fibs_from nth].
    change (fib j + fib (S j)) with (fib (S (S j))).
    rewrite IH by lia. f_equal. lia.
Qed.

(** [fibon_normal(n)] starts 1, 1 and each later element is the sum of the
    two before it. *)
Theorem fibon_normal_recurrence (n : Z) (k : nat) :
  (k < Z.to_nat n)%nat ->
  nth k (fibon_normal n) 0
  = match k with
    | O | S O => 1
    | S (S j) => nth j (fibon_normal n) 0 + nth (S j) (fibon_normal n) 0
    end.
Proof.
  intros Hk. rewrite fibon_normal_fibs_from.
  change 1 with (fib 0) at 1. change (fibs_from (fib 0) 1) with (fibs_from (fib 0) (fib 1)).
  rewrite !(fibs_from_nth 0) by lia.
  destruct k as [|[|j]]; try reflexivity.
  rewrite !(fibs_from_nth 0) by lia. reflexivity.
Qed.

Lemma fibon_normal_recurrence_witness :
  nth 5 (Generators.fibon_normal 6) 0
  = nth 3 (Generators.fibon_normal 6) 0 + nth 4 (Generators.fibon_normal 6) 0.
Proof.
  apply (fibon_normal_recurrence 6 5). vm_compute. lia.
Defined.

Lemma firstn_fibs_from (a b : Z) (m turns : nat) :
  (m <= turns)%nat -> firstn m (fibs_from a b turns) = fibs_from a b m.
Proof.
  revert a b turns. induction m as [|m IH]; intros a b [|turns] Hm; try lia;
    try reflexivity.
  cbn [fibs_from firstn]. f_equal. apply IH. lia.
Qed.

(** Asking for fewer numbers gives a prefix: the first [m] elements of
    [fibon_normal(n)] are [fibon_normal(m)] whenever [m <= n]. *)
Theorem fibon_normal_prefix (m n : Z) :
  m <= n -> firstn (Z.to_nat m) (fibon_normal n) = fibon_normal m.
Proof.
  intros Hmn. rewrite !fibon_normal_fibs_from. apply firstn_fibs_from. lia.
Qed.

Lemma fibon_normal_prefix_witness :
  firstn (Z.to_nat 3) (Generators.fibon_normal 8) = Generators.fibon_normal 3.
Proof. apply (fibon_normal_prefix 3 8). lia. Defined.

Lemma fibs_from_increasing (a b : Z) (turns : nat) :
  1 <= a <= b ->
  Forall (Z.le 1) (fibs_from a b turns) /\ Sorted Z.le (fibs_from a b turns).
Proof.
  revert a b. induction turns as [|turns IH]; intros a b Hab; cbn [fibs_from].
  - split; constructor.
  - destruct (IH b (a + b)) as [Hpos Hsorted]; [lia|].
    split; constructor; try assumption; try lia.
    destruct turns; cbn [fibs_from]; constructor. lia.
Qed.

(** The numbers [fibon_normal(n)] returns are all at least 1 and never
    decrease along the list. *)
Theorem fibon_normal_increasing (n : Z) :
  Forall (Z.le 1) (fibon_normal n) /\ Sorted Z.le (fibon_normal n).
Proof. rewrite fibon_normal_fibs_from. apply fibs_from_increasing. lia. Qed.

End GeneratorExtras.

(** ** Calls with positional and keyword arguments *)

Section ArgumentFacts.

Import ArgsKwargs.

(** A loop that prints one line per item appends these lines in order. *)
Lemma for_each_print {A} (line : A -> string) (items : list A) (w : world) :
  for_each (fun item => print (line item)) items w
  = (Return tt, mkWorld (globals w) (clock w) (stdout w ++ map line items)).
Proof.
  revert w. induction items as [|item items IH]; intros w; cbn [for_each map].
  - unfold ret. rewrite app_nil_r. now destruct w.
  - unfold bind at 1. unfold print at 1. rewrite IH.
    cbn [globals clock stdout]. now rewrite <- app_assoc.
Qed.

(** [test_var_args(f_arg, *argv)] prints one line for [f_arg] and then one
    line for each further positional argument, in the order given, and
    returns [None]; called without any argument it raises [TypeError] and
    prints nothing. *)
Theorem test_var_args_lines args w :
  fn_call test_var_args args [] w
  = match args with
    | [] => (Raise TypeError, w)
    | f_arg :: argv =>
        (Return VNone,
         mkWorld (globals w) (clock w)
           (stdout w
            ++ ("first normal arg: " ++ str_value f_arg)%string
               :: map (fun arg => ("another arg through *argv: " ++ str_value arg)%string)
                    argv))
    end.
Proof.
  destruct args as [|f_arg argv]; [reflexivity|].
  cbn [test_var_args fn_call]. unfold test_var_args_body.
  unfold bind at 1. unfold print_items at 1. unfold print at 1.
  unfold bind at 1. unfold print_items.
  rewrite (for_each_print
             (fun arg => String.concat " " ["another arg through *argv:"%string; str_value arg])).
  cbn [globals clock stdout]. unfold ret.
  rewrite <- app_assoc. reflexivity.
Qed.

(** [greet_me] prints one line [key = value] for each keyword argument, in
    the order of the call (none for a call without arguments), and raises
    [TypeError] without printing when given any positional argument. *)
Theorem greet_me_lines args kwargs w :
  fn_call greet_me args kwargs w
  = match args with
    | [] =>
        (Return VNone,
         mkWorld (globals w) (clock w)
           (stdout w
            ++ map (fun item => (fst item ++ " = " ++ str_value (snd item))%string)
                 kwargs))
    | _ :: _ => (Raise TypeError, w)
    end.
Proof.
  destruct args as [|a args]; [|reflexivity].
  cbn [greet_me fn_call]. unfold bind.
  rewrite (for_each_print
             (fun item : string * value =>
                (fst item ++ " = " ++ str_value (snd item))%string)).
  reflexivity.
Qed.

Lemma distinct_NoDup (keys : list string) : distinct keys = true <-> NoDup keys.
Proof.
  induction keys as [|key keys IH]; cbn [distinct].
  - split; [constructor | reflexivity].
  - rewrite andb_true_iff, negb_true_iff, IH. split.
    + intros [Hnot Hnodup]. constructor; [|assumption].
      intros Hin. assert (Hex : existsb (String.eqb key) keys = true).
      { apply existsb_exists. exists key. split; [assumption | apply String.eqb_refl]. }
      congruence.
    + intros Hnodup. inversion Hnodup as [|? ? Hnot Hrest]; subst.
      split; [|assumption].
      destruct (existsb (String.eqb key) keys) eqn:Hex; [|reflexivity].
      apply existsb_exists in Hex. destruct Hex as [k [Hin Heq]].
      apply String.eqb_eq in Heq. subst k. contradiction.
Qed.

Lemma bool_eq_iff (a b : bool) : (a = true <-> b = true) -> a = b.
Proof.
  destruct a, b; intros [H1 H2]; try reflexivity.
  - symmetry. now apply H1.
  - now apply H2.
Qed.

(** With distinct keys, [lookup] finds exactly the pairs of the call. *)
Lemma lookup_In (key : string) (v : value) (kwargs : kwargs_t) :
  NoDup (map fst kwargs) ->
  (lookup key kwargs = Some v <-> In (key, v) kwargs).
Proof.
  unfold lookup.
  induction kwargs as [|[k u] kwargs IH]; intros Hnodup; cbn [find map fst].
  - split; [discriminate | intros []].
  - cbn [map fst] in Hnodup. inversion Hnodup as [|? ? Hnot Hrest]; subst.
    destruct (k =? key)%string eqn:Hk.
    + apply String.eqb_eq in Hk. subst k. cbn [option_map snd]. split.
      * intros H. injection H as ->. now left.
      * intros [H | H]; [now injection H as -> |].
        exfalso. apply Hnot. apply (in_map fst) in H. exact H.
    + rewrite (IH Hrest). split.
      * intros H. now right.
      * intros [H | H]; [|assumption].
        injection H as -> _. rewrite String.eqb_refl in Hk. discriminate.
Qed.

Lemma lookup_permutation (key : string) (kwargs kwargs' : kwargs_t) :
  Permutation kwargs kwargs' ->
  NoDup (map fst kwargs) ->
  lookup key kwargs = lookup key kwargs'.
Proof.
  intros Hperm Hnodup.
  assert (Hnodup' : NoDup (map fst kwargs'))
    by (eapply Permutation_NoDup; [apply Permutation_map; exact Hperm | assumption]).
  destruct (lookup key kwargs) as [v|] eqn:H1.
  - symmetry. apply lookup_In; [assumption|].
    apply (Permutation_in _ Hperm). now apply lookup_In.
  - destruct (lookup key kwargs') as [v|] eqn:H2; [|reflexivity].
    apply lookup_In in H2; [|assumption].
    apply (Permutation_in _ (Permutation_sym Hperm)) in H2.
    apply lookup_In in H2; [|assumption]. congruence.
Qed.

(** Binding does not depend on the order in which the keywords come. *)
Lemma bind_params_permutation params args (kwargs kwargs' : kwargs_t) :
  Permutation kwargs kwargs' ->
  bind_params params args kwargs = bind_params params args kwargs'.
Proof.
  intros Hperm. unfold bind_params.
  assert (Hkeys : Permutation (map fst kwargs) (map fst kwargs'))
    by now apply Permutation_map.
  assert (Hdistinct : distinct (map fst kwargs) = distinct (map fst kwargs')).
  { apply bool_eq_iff. rewrite !distinct_NoDup. split; intros H.
    - eapply Permutation_NoDup; eassumption.
    - eapply Permutation_NoDup; [apply Permutation_sym|]; eassumption. }
  assert (Hknown : forall named : list string,
    forallb (fun key => existsb (String.eqb key) named) (map fst kwargs)
    = forallb (fun key => existsb (String.eqb key) named) (map fst kwargs')).
  { intros named. apply bool_eq_iff. rewrite !forallb_forall. split; intros H k Hin.
    - apply H. eapply Permutation_in; [apply Permutation_sym|]; eassumption.
    - apply H. eapply Permutation_in; eassumption. }
  rewrite <- Hdistinct, <- Hknown.
  destruct (distinct (map fst kwargs)) eqn:Hd;
    [|now rewrite andb_false_r].
  apply distinct_NoDup in Hd.
  assert (Hvalues : forall named,
    named_values named kwargs = named_values named kwargs').
  { induction named as [|[name default] named IH]; cbn [named_values];
      [reflexivity|].
    now rewrite IH, (lookup_permutation name kwargs kwargs' Hperm Hd). }
  now rewrite Hvalues.
Qed.

(** [test_args_kwargs] called with its three arguments by name, in any
    order, does what the positional call with the same values does. *)
Theorem test_args_kwargs_any_keyword_order kwargs arg1 arg2 arg3 w :
  Permutation kwargs
    [("arg1"%string, arg1); ("arg2"%string, arg2); ("arg3"%string, arg3)] ->
  fn_call test_args_kwargs [] kwargs w
  = fn_call test_args_kwargs [arg1; arg2; arg3] [] w.
Proof.
  intros Hperm. cbn [test_args_kwargs fn_call].
  now rewrite (bind_params_permutation _ _ _ _ Hperm).
Qed.

(** The script's second call: [arg3], [arg2], [arg1] given in that order. *)
Lemma test_args_kwargs_any_keyword_order_witness :
  fn_call test_args_kwargs []
      [("arg3"%string, VInt 3); ("arg2"%string, VStr "two"); ("arg1"%string, VInt 5)]
      initial_world
  = fn_call test_args_kwargs [VInt 5; VStr "two"; VInt 3] [] initial_world.
Proof.
  apply (test_args_kwargs_any_keyword_order
           [("arg3"%string, VInt 3); ("arg2"%string, VStr "two"); ("arg1"%string, VInt 5)]
           (VInt 5) (VStr "two") (VInt 3) initial_world).
  apply Permutation_sym.
  apply (perm_trans (l' := [("arg2"%string, VStr "two"); ("arg1"%string, VInt 5);
                            ("arg3"%string, VInt 3)])).
  - apply perm_swap.
  - apply (perm_trans (l' := [("arg2"%string, VStr "two"); ("arg3"%string, VInt 3);
                              ("arg1"%string, VInt 5)])).
    + apply perm_skip. apply perm_swap.
    + apply perm_swap.
Defined.

(** A positional call of [test_args_kwargs] with fewer or more than three
    arguments raises [TypeError] and prints nothing. *)
Theorem test_args_kwargs_needs_three args w :
  List.length args <> 3%nat ->
  fn_call test_args_kwargs args [] w = (Raise TypeError, w).
Proof.
  intros Hlen.
  destruct args as [|a1 [|a2 [|a3 [|a4 args]]]]; try reflexivity.
  now contradiction Hlen.
Qed.

Lemma test_args_kwargs_needs_three_witness :
  fn_call test_args_kwargs [VStr "two"; VInt 3] [] initial_world
  = (Raise TypeError, initial_world).
Proof.
  apply (test_args_kwargs_needs_three [VStr "two"; VInt 3] initial_world).
  cbn. discriminate.
Defined.

End ArgumentFacts.

(** ** The conditional idioms *)

Section TernaryFacts.

Import Ternary.

Local Open Scope Z_scope.

(** With a [bool] as the test, the tuple idiom
    [(if_test_is_false, if_test_is_true)[test]] gives what the conditional
    expression [if_test_is_true if test else if_test_is_false] gives. *)
Theorem tuple_select_on_bool (if_test_is_false if_test_is_true : value) (test : bool) :
  tuple_select if_test_is_false if_test_is_true (VBool test)
  = Return (conditional if_test_is_true if_test_is_false (VBool test)).
Proof. destruct test; reflexivity. Qed.

(** What the tuple idiom does with an [int] as the test. *)
Lemma tuple_select_on_int (a b : value) (z : Z) :
  tuple_select a b (VInt z)
  = if (z =? 0) || (z =? -2) then Return a
    else if (z =? 1) || (z =? -1) then Return b
    else Raise IndexError.
Proof.
  destruct (Z.eq_dec z 0) as [-> | H0]; [reflexivity|].
  destruct (Z.eq_dec z (-2)) as [-> | H2]; [reflexivity|].
  destruct (Z.eq_dec z 1) as [-> | H1]; [reflexivity|].
  destruct (Z.eq_dec z (-1)) as [-> | H3]; [reflexivity|].
  apply Z.eqb_neq in H0 as E0. apply Z.eqb_neq in H2 as E2.
  apply Z.eqb_neq in H1 as E1. apply Z.eqb_neq in H3 as E3.
  rewrite E0, E2, E1, E3. cbn [orb].
  unfold tuple_select, tuple_index. cbn [List.length Z.of_nat Pos.of_succ_nat Pos.succ].
  destruct (z <? 0) eqn:Hneg.
  - apply Z.ltb_lt in Hneg.
    assert (Hout : (0 <=? z + 2) && (z + 2 <? 2) = false).
    { apply andb_false_iff. left. apply Z.leb_gt. lia. }
    now rewrite Hout.
  - apply Z.ltb_ge in Hneg.
    assert (Hout : (0 <=? z) && (z <? 2) = false).
    { apply andb_false_iff. right. apply Z.ltb_ge. lia. }
    now rewrite Hout.
Qed.

(** With an [int] as the test, the tuple idiom gives the first alternative
    for 0 and -2, the second for 1 and -1, and raises [IndexError] for any
    other number; so, with two different alternatives, it agrees with the
    conditional expression (which takes every number but 0 as true) only
    for 0, 1 and -1. *)
Theorem tuple_select_agrees_on_int (a b : value) (z : Z) :
  a <> b ->
  tuple_select a b (VInt z)
    = (if (z =? 0) || (z =? -2) then Return a
       else if (z =? 1) || (z =? -1) then Return b
       else Raise IndexError) /\
  (tuple_select a b (VInt z) = Return (conditional b a (VInt z))
   <-> z = 0 \/ z = 1 \/ z = -1).
Proof.
  intros Hab. split; [apply tuple_select_on_int|].
  rewrite tuple_select_on_int. unfold conditional. cbn [truthy].
  destruct (Z.eq_dec z 0) as [-> | H0]; [cbn; tauto|].
  destruct (Z.eq_dec z (-2)) as [-> | H2].
  { cbn. split; [|lia]. intros H. injection H as H. contradiction. }
  destruct (Z.eq_dec z 1) as [-> | H1]; [cbn; tauto|].
  destruct (Z.eq_dec z (-1)) as [-> | H3]; [cbn; tauto|].
  apply Z.eqb_neq in H0 as E0. apply Z.eqb_neq in H2 as E2.
  apply Z.eqb_neq in H1 as E1. apply Z.eqb_neq in H3 as E3.
  rewrite E0, E2, E1, E3. cbn [orb negb].
  split; [discriminate | lia].
Qed.

Lemma tuple_select_agrees_on_int_witness :
  Ternary.personality (VInt (-1))
  = Return (conditional (VStr "nice") (VStr "mean") (VInt (-1))).
Proof.
  destruct (tuple_select_agrees_on_int (VStr "mean") (VStr "nice") (-1))
    as [_ [_ Hagree]].
  - discriminate.
  - apply Hagree. right. right. reflexivity.
Defined.

(** [my_function(real_name, optional_display_name)] prints the display name
    when it is a true value and the real name otherwise, so a display name
    that is [None], [False], [0] or the empty string is ignored; the call
    with the real name alone prints the real name. *)
Theorem my_function_prints real_name optional_display_name w :
  fn_call my_function [real_name; optional_display_name] [] w
    = (Return VNone,
       mkWorld (globals w) (clock w)
         (stdout w
          ++ [str_value (if truthy optional_display_name
                         then optional_display_name else real_name)])) /\
  fn_call my_function [real_name] [] w
    = (Return VNone,
       mkWorld (globals w) (clock w) (stdout w ++ [str_value real_name])).
Proof. split; reflexivity. Qed.

End TernaryFacts.

(** ** Listing the duplicates *)

Section DuplicateFacts.

Import SetDemo.

Lemma string_compare_no_gt_trans (a b c : string) :
  String.compare a b <> Gt -> String.compare b c <> Gt -> String.compare a c <> Gt.
Proof.
  revert b c. induction a as [|x a IH]; intros [|y b] [|z c]; cbn [String.compare];
    try congruence.
  unfold Ascii.compare.
  destruct (N.compare_spec (Ascii.N_of_ascii x) (Ascii.N_of_ascii y)) as [Hxy|Hxy|Hxy];
    destruct (N.compare_spec (Ascii.N_of_ascii y) (Ascii.N_of_ascii z)) as [Hyz|Hyz|Hyz];
    destruct (N.compare_spec (Ascii.N_of_ascii x) (Ascii.N_of_ascii z)) as [Hxz|Hxz|Hxz];
    try congruence; try lia.
  apply IH.
Qed.

Lemma string_leb_trans : Transitive (fun a b => is_true (StringOrder.leb a b)).
Proof.
  intros a b c. unfold is_true, StringOrder.leb, String.leb.
  pose proof (string_compare_no_gt_trans a b c) as Htrans.
  destruct (String.compare a b), (String.compare b c), (String.compare a c);
    try reflexivity; try discriminate; intros _ _;
    exfalso; apply Htrans; congruence.
Qed.

(** Two sorted lists with the same elements are the same list. *)
Lemma sorted_permutation_eq (l1 l2 : list string) :
  StronglySorted (fun a b => is_true (StringOrder.leb a b)) l1 ->
  StronglySorted (fun a b => is_true (StringOrder.leb a b)) l2 ->
  Permutation l1 l2 ->
  l1 = l2.
Proof.
  revert l2. induction l1 as [|a l1 IH]; intros l2 Hs1 Hs2 Hperm.
  - symmetry. now apply Permutation_nil.
  - destruct l2 as [|b l2].
    + apply Permutation_sym in Hperm. now apply Permutation_nil in Hperm.
    + inversion Hs1 as [|? ? Hs1' Ha]; subst.
      inversion Hs2 as [|? ? Hs2' Hb]; subst.
      assert (Hab : a = b).
      { assert (Hina : In a (b :: l2))
          by (apply (Permutation_in _ Hperm); now left).
        assert (Hinb : In b (a :: l1))
          by (apply (Permutation_in _ (Permutation_sym Hperm)); now left).
        destruct Hina as [-> | Hina]; [reflexivity|].
        destruct Hinb as [-> | Hinb]; [reflexivity|].
        rewrite Forall_forall in Ha, Hb.
        apply String.leb_antisym; [apply Ha | apply Hb]; assumption. }
      subst b. f_equal. apply IH; try assumption.
      now apply Permutation_cons_inv with a.
Qed.

Lemma sorted_permutation (l1 l2 : list string) :
  Permutation l1 l2 -> sorted l1 = sorted l2.
Proof.
  intros Hperm. unfold sorted. apply sorted_permutation_eq.
  - apply StringSort.StronglySorted_sort, string_leb_trans.
  - apply StringSort.StronglySorted_sort, string_leb_trans.
  - eapply perm_trans; [apply Permutation_sym, StringSort.Permuted_sort|].
    eapply perm_trans; [exact Hperm | apply StringSort.Permuted_sort].
Qed.

Lemma existsb_eqb_In (x : string) (l : list string) :
  existsb (String.eqb x) l = true <-> In x l.
Proof.
  rewrite existsb_exists. split.
  - intros [y [Hin Heq]]. apply String.eqb_eq in Heq. now subst y.
  - intros Hin. exists x. split; [assumption | apply String.eqb_refl].
Qed.

(** The loop keeps [duplicates] free of repetitions and adds exactly the
    wanted values of the items it has gone through. *)
Lemma duplicates_loop (wanted : string -> bool) (items duplicates : list string) :
  NoDup duplicates ->
  let result :=
    fold_left
      (fun duplicates value =>
         if wanted value then
           if negb (existsb (String.eqb value) duplicates) then duplicates ++ [value]
           else duplicates
         else duplicates)
      items duplicates in
  NoDup result /\
  forall x, In x result <-> In x duplicates \/ (In x items /\ wanted x = true).
Proof.
  revert duplicates. induction items as [|value items IH]; intros duplicates Hnodup;
    cbn [fold_left].
  - split; [assumption|]. intros x. cbn [In]. tauto.
  - destruct (wanted value) eqn:Hwanted.
    + destruct (existsb (String.eqb value) duplicates) eqn:Hseen; cbn [negb].
      * apply existsb_eqb_In in Hseen.
        destruct (IH duplicates Hnodup) as [Hnd Hin]. split; [assumption|].
        intros x. rewrite Hin. cbn [In]. split; [tauto|].
        intros [H | [[-> | H] Hw]]; auto.
      * assert (Hnot : ~ In value duplicates).
        { intros Hin. apply existsb_eqb_In in Hin. congruence. }
        destruct (IH (duplicates ++ [value])) as [Hnd Hin].
        { apply NoDup_app; [assumption | repeat constructor; intros [] |].
          intros y Hy [<- | []]. contradiction. }
        split; [assumption|].
        intros x. rewrite Hin, in_app_iff. cbn [In]. split.
        -- intros [[H | [<- | []]] | [H Hw]]; auto.
        -- intros [H | [[<- | H] Hw]]; auto.
    + destruct (IH duplicates Hnodup) as [Hnd Hin]. split; [assumption|].
      intros x. rewrite Hin. cbn [In]. split; [tauto|].
      intros [H | [[<- | H] Hw]]; auto. congruence.
Qed.

Lemma count_above_one_In (some_list : list string) (x : string) :
  (1 <? count some_list x)%nat = true -> In x some_list.
Proof.
  intros H. apply Nat.ltb_lt in H. unfold count in H.
  apply (count_occ_In string_dec). lia.
Qed.

Lemma duplicates_inefficient_spec (some_list : list string) :
  NoDup (duplicates_inefficient some_list) /\
  forall x, In x (duplicates_inefficient some_list)
            <-> (1 <? count some_list x)%nat = true.
Proof.
  destruct (duplicates_loop (fun v => (1 <? count some_list v)%nat) some_list [])
    as [Hnd Hin]; [constructor|].
  split; [exact Hnd|].
  intros x. unfold duplicates_inefficient. rewrite (Hin x). cbn [In]. split.
  - intros [[] | [_ H]]. exact H.
  - intros H. right. split; [now apply count_above_one_In | exact H].
Qed.

Lemma duplicates_efficient_spec (some_list : list string) :
  NoDup (duplicates_efficient some_list) /\
  forall x, In x (duplicates_efficient some_list)
            <-> (1 <? count some_list x)%nat = true.
Proof.
  unfold duplicates_efficient, set_of. split; [apply NoDup_nodup|].
  intros x. rewrite nodup_In, filter_In. split.
  - intros [_ H]. exact H.
  - intros H. split; [now apply count_above_one_In | exact H].
Qed.

(** For every list, the two ways of listing the duplicates print the same
    sorted list. *)
Theorem duplicates_methods_agree (some_list : list string) :
  sorted (duplicates_inefficient some_list) = sorted (duplicates_efficient some_list).
Proof.
  apply sorted_permutation.
  destruct (duplicates_inefficient_spec some_list) as [Hnd1 Hin1].
  destruct (duplicates_efficient_spec some_list) as [Hnd2 Hin2].
  apply NoDup_Permutation; try assumption.
  intros x. now rewrite Hin1, Hin2.
Qed.

(** The sorted list of duplicates holds exactly the values that occur at
    least twice in the list, each of them once, in increasing order. *)
Theorem duplicates_sorted_list (some_list : list string) :
  (forall x, In x (sorted (duplicates_inefficient some_list))
             <-> 2 <= count some_list x) /\
  NoDup (sorted (duplicates_inefficient some_list)) /\
  StronglySorted (fun a b => String.leb a b = true)
    (sorted (duplicates_inefficient some_list)).
Proof.
  destruct (duplicates_inefficient_spec some_list) as [Hnd Hin].
  pose proof (StringSort.Permuted_sort (duplicates_inefficient some_list)) as Hperm.
  split; [|split].
  - intros x. unfold sorted. split.
    + intros H. apply (Permutation_in _ (Permutation_sym Hperm)) in H.
      apply Hin in H. apply Nat.ltb_lt in H. lia.
    + intros H. apply (Permutation_in _ Hperm). apply Hin.
      apply Nat.ltb_lt. lia.
  - unfold sorted. eapply Permutation_NoDup; eassumption.
  - apply (StringSort.StronglySorted_sort _ string_leb_trans).
Qed.

(** A short list: ["b"] three times, ["a"] twice, ["c"] and ["d"] once. *)
Lemma duplicates_example :
  duplicates_inefficient ["b"; "a"; "c"; "a"; "b"; "d"; "b"]%string
    = ["b"; "a"]%string /\
  sorted (duplicates_inefficient ["b"; "a"; "c"; "a"; "b"; "d"; "b"]%string)
    = ["a"; "b"]%string.
Proof. split; reflexivity. Qed.

End DuplicateFacts.
